(** * logrotate: a size-based rotating log writer

    A shallow embedding of [logrotate.go] (package [logrotate]) together with
    a small model of the part of the Go runtime and operating system the
    package talks to: 64-bit integers, [time.Now().Format], [filepath.Dir]
    and the file-system calls of package [os].

    The writer is a record [Logrotate]; its methods are state-passing
    functions over the writer and the [World] it runs in.  Every system call
    the writer issues is recorded, in order, in the world's [trace]. *)

From Stdlib Require Import ZArith Lia String Ascii List.
From Stdlib.Init Require Byte.
From stdpp Require Import base option gmap strings list.
Import ListNotations.

Local Open Scope Z_scope.

(** ** Go's [int64] *)

Module Int64.

Definition min_int : Z := - 2 ^ 63.
Definition max_int : Z := 2 ^ 63 - 1.

Definition in_range (z : Z) : Prop := min_int <= z <= max_int.

(** Two's complement wrap-around of a mathematical integer. *)
Definition wrap (z : Z) : Z := (z + 2 ^ 63) mod 2 ^ 64 - 2 ^ 63.

Definition add (a b : Z) : Z := wrap (a + b).
Definition mul (a b : Z) : Z := wrap (a * b).

End Int64.

(** ** The Go library, as far as the package uses it *)

(** A byte slice. [len] is Go's [len(p)]: a non-negative [int], so the
    conversion [int64(len(p))] is exact. *)
Definition bytes : Type := list Byte.byte.

Definition len (p : bytes) : Z := Z.of_nat (length p).

(** Error numbers reported by the operating system. *)
Inductive errno : Type :=
| EACCES | EBADF | EBUSY | EEXIST | EINVAL | EIO | EISDIR | ENAMETOOLONG
| ENOENT | ENOSPC | ENOTDIR.

(** Go [error] values: [errors.New] strings and the errors of package [os],
    which name the failing operation and its path(s). *)
Inductive error : Type :=
| errors_New (msg : string)
| PathError (op : string) (path : string) (e : errno)
| LinkError (op : string) (old new : string) (e : errno).

(** [os.IsNotExist(err)]; a nil error is not a not-exist error. *)
Definition os_IsNotExist (err : option error) : bool :=
  match err with
  | Some (PathError _ _ ENOENT) | Some (LinkError _ _ _ ENOENT) => true
  | _ => false
  end.

(** *** [time] *)

(** A wall-clock reading in the local time zone. *)
Record Time : Type := mkTime {
  year : nat; month : nat; day : nat;
  hour : nat; minute : nat; second : nat
}.

Definition digit (n : nat) : ascii := ascii_of_nat (48 + n mod 10).

(** The last [width] decimal digits of [n], with leading zeros, in front
    of [acc]. *)
Fixpoint digits_from (width : nat) (n : nat) (acc : string) : string :=
  match width with
  | O => acc
  | S k => digits_from k (n / 10) (String (digit n) acc)
  end.

(** The number of decimal digits of [n] (1 for 0), counted with [fuel]
    divisions at most. *)
Fixpoint ndigits_fuel (fuel n : nat) : nat :=
  match fuel with
  | O => 1%nat
  | S f => if (n <? 10)%nat then 1%nat else S (ndigits_fuel f (n / 10))
  end.

Definition ndigits (n : nat) : nat := ndigits_fuel n n.

(** The decimal digits of [n], zero-padded on the left to at least [width]
    digits (the runtime's [appendInt]): a number with more digits than
    [width] is printed in full. *)
Definition zero_pad (width n : nat) : string :=
  digits_from (Nat.max width (ndigits n)) n "".

(** [t.Format("2006.01.02_15:04:05")]: the layout's reference fields are a
    year of at least four digits and a month, day, hour, minute and second of
    at least two; the dots, the underscore and the colons are literal. *)
Definition Time_Format (t : Time) : string :=
  zero_pad 4 (year t) +:+ "." +:+ zero_pad 2 (month t) +:+ "." +:+
  zero_pad 2 (day t) +:+ "_" +:+ zero_pad 2 (hour t) +:+ ":" +:+
  zero_pad 2 (minute t) +:+ ":" +:+ zero_pad 2 (second t).

(** *** [path/filepath] *)

(** Index one past the last ['/'] of [s], if there is one. *)
Fixpoint last_slash (s : string) : option nat :=
  match s with
  | EmptyString => None
  | String c rest =>
      match last_slash rest with
      | Some i => Some (S i)
      | None => if Ascii.eqb c "/" then Some 1%nat else None
      end
  end.

(** The elements of a path: the texts between its slashes, empty ones
    included. *)
Fixpoint path_elements (s : string) : list string :=
  match s with
  | EmptyString => [EmptyString]
  | String c rest =>
      if Ascii.eqb c "/" then EmptyString :: path_elements rest
      else
        match path_elements rest with
        | e :: es => String c e :: es
        | [] => [String c EmptyString]
        end
  end.

(** One element of a path put on the elements kept so far (the last one
    first) by [filepath.Clean]: [".."] removes the element before it, unless
    there is none to remove; at the root it is dropped. *)
Definition clean_step (rooted : bool) (kept : list string) (e : string)
    : list string :=
  if String.eqb e ".." then
    match kept with
    | top :: rest => if String.eqb top ".." then e :: kept else rest
    | [] => if rooted then [] else [e]
    end
  else e :: kept.

(** [filepath.Clean(path)] with ['/'] as separator: doubled slashes and
    ["."] elements go, [".."] elements cancel the element before them, a
    trailing slash goes, and the empty result is ["."]. *)
Definition filepath_Clean (path : string) : string :=
  let rooted := match path with
                | String c _ => Ascii.eqb c "/"
                | EmptyString => false
                end in
  let elems :=
    List.filter (fun e => negb (String.eqb e "" || String.eqb e "."))
                (path_elements path) in
  let kept := fold_left (clean_step rooted) elems [] in
  let out := (if rooted then "/" else "") +:+ String.concat "/" (rev kept) in
  if String.eqb out "" then "." else out.

(** [filepath.Dir(path)]: the path up to and including its last slash,
    cleaned; ["."] when the path has no slash. *)
Definition filepath_Dir (path : string) : string :=
  match last_slash path with
  | None => filepath_Clean ""
  | Some i => filepath_Clean (substring 0 i path)
  end.

(** The last element of a path: the text after its last slash. *)
Definition base_name (path : string) : string :=
  match last_slash path with
  | None => path
  | Some i => substring i (String.length path - i) path
  end.

(** ** The world: file system, open files, clock, faults *)

(** An open file (what an [*os.File] denotes): the file it refers to and the
    number of bytes written through it since it was opened. *)
Record openfile : Type := mkOpen {
  of_name : string;
  of_inode : nat;
  of_written : Z
}.

(** An injected fault: the error a system call fails with; for a write,
    [f_partial] bytes get written before the failure. *)
Record fault : Type := mkFault {
  f_errno : errno;
  f_partial : nat
}.

(** System calls as they appear in the trace, with their results. *)
Inductive event : Type :=
| EvStat (dir : string) (r : option error)
| EvMkdir (dir : string) (r : option error)
| EvOpen (path : string) (r : nat + error)
| EvRename (old new : string) (r : option error)
| EvWrite (fd : nat) (p : bytes) (n : Z) (r : option error)
| EvClose (fd : nat) (r : option error).

Record World : Type := mkWorld {
  dirs : gset string;              (* existing directories *)
  names : gmap string nat;         (* regular files: path -> file *)
  inodes : gmap nat bytes;         (* file contents *)
  fds : gmap nat openfile;         (* open files *)
  now : Time;                      (* the local clock *)
  faults : list (option fault);    (* outcome of the coming system calls *)
  trace : list event               (* system calls made so far *)
}.

(** The fault, if any, that hits the next system call, and the world with
    the schedule advanced.  An exhausted schedule means no more faults. *)
Definition next_fault (w : World) : option fault * World :=
  match faults w with
  | [] => (None, w)
  | f :: rest =>
      (f, mkWorld (dirs w) (names w) (inodes w) (fds w) (now w) rest (trace w))
  end.

Definition log (ev : event) (w : World) : World :=
  mkWorld (dirs w) (names w) (inodes w) (fds w) (now w) (faults w)
          (trace w ++ [ev]).

(** A key that is not bound in [m]. *)
Definition fresh_key {V} (m : gmap nat V) : nat := fresh (dom m).

(** A system call: consume the next entry of the fault schedule, run the
    call's effect on the file system, and record the call with its result. *)
Definition syscall {R} (effect : option fault -> World -> R * World)
    (ev : R -> event) (w : World) : R * World :=
  let '(f, w1) := next_fault w in
  let '(r, w2) := effect f w1 in
  (r, log (ev r) w2).

Definition set_dirs (d : gset string) (w : World) : World :=
  mkWorld d (names w) (inodes w) (fds w) (now w) (faults w) (trace w).

Definition set_names (n : gmap string nat) (w : World) : World :=
  mkWorld (dirs w) n (inodes w) (fds w) (now w) (faults w) (trace w).

Definition set_inodes (i : gmap nat bytes) (w : World) : World :=
  mkWorld (dirs w) (names w) i (fds w) (now w) (faults w) (trace w).

Definition set_fds (f : gmap nat openfile) (w : World) : World :=
  mkWorld (dirs w) (names w) (inodes w) f (now w) (faults w) (trace w).

(** Limits of the operating system on names: the length of one element
    and of a whole path. *)
Definition NAME_MAX : nat := 255.
Definition PATH_MAX : nat := 4096.

Definition has_nul (s : string) : bool :=
  existsb (Ascii.eqb "000") (list_ascii_of_string s).

(** Why [name] cannot be looked up at all, if it cannot: the empty name
    does not exist; a name with a NUL byte is invalid; a path or one of its
    elements may be too long. *)
Definition path_error (name : string) : option errno :=
  if String.eqb name "" then Some ENOENT
  else if has_nul name then Some EINVAL
  else if (PATH_MAX <=? String.length name)%nat then Some ENAMETOOLONG
  else if existsb (fun e => (NAME_MAX <? String.length e)%nat)
                  (path_elements name)
  then Some ENAMETOOLONG
  else None.

(** Names that can only be names of directories: those that end in a slash
    and those whose last element is ["."] or [".."]. *)
Definition ends_in_slash (name : string) : bool :=
  String.eqb (base_name name) "".

Definition ends_in_dots (name : string) : bool :=
  String.eqb (base_name name) "." || String.eqb (base_name name) "..".

(** Why a regular file cannot be created under [name], if it cannot. *)
Definition name_error (name : string) : option errno :=
  match path_error name with
  | Some en => Some en
  | None =>
      if ends_in_slash name || ends_in_dots name then Some EISDIR else None
  end.

(** Is [path] bound to a directory or to a regular file? *)
Definition exists_path (path : string) (w : World) : bool :=
  bool_decide (path ∈ dirs w) || bool_decide (is_Some (names w !! path)).

(** [os.Stat(name)], result reduced to its error. *)
Definition stat_effect (name : string) (f : option fault) (w : World)
    : option error * World :=
  match f with
  | Some ft => (Some (PathError "stat" name (f_errno ft)), w)
  | None =>
      if exists_path name w then (None, w)
      else
        match path_error name with
        | Some en => (Some (PathError "stat" name en), w)
        | None => (Some (PathError "stat" name ENOENT), w)
        end
  end.

Definition os_Stat (name : string) : World -> option error * World :=
  syscall (stat_effect name) (EvStat name).

(** [os.Mkdir(name, 0777)]: creates one directory; its parent must exist,
    and its name be one that can be looked up. *)
Definition mkdir_effect (name : string) (f : option fault) (w : World)
    : option error * World :=
  match f with
  | Some ft => (Some (PathError "mkdir" name (f_errno ft)), w)
  | None =>
      if exists_path name w then (Some (PathError "mkdir" name EEXIST), w)
      else
        match path_error name with
        | Some en => (Some (PathError "mkdir" name en), w)
        | None =>
            if bool_decide (filepath_Dir name ∈ dirs w)
            then (None, set_dirs ({[name]} ∪ dirs w) w)
            else (Some (PathError "mkdir" name ENOENT), w)
        end
  end.

Definition os_Mkdir (name : string) : World -> option error * World :=
  syscall (mkdir_effect name) (EvMkdir name).

(** The world with a new open file for file [i], named [name], and its
    handle. *)
Definition alloc_fd (name : string) (i : nat) (w : World) : nat * World :=
  let fd := fresh_key (fds w) in
  (fd, set_fds (<[fd := mkOpen name i 0]> (fds w)) w).

(** [os.OpenFile(name, os.O_CREATE|os.O_APPEND|os.O_WRONLY, 0666)]: opens
    the file for appending, creating it empty when it does not exist, which
    takes a name a regular file can have, in a directory that exists. *)
Definition open_effect (name : string) (f : option fault) (w : World)
    : (nat + error) * World :=
  match f with
  | Some ft => (inr (PathError "open" name (f_errno ft)), w)
  | None =>
      if bool_decide (name ∈ dirs w)
      then (inr (PathError "open" name EISDIR), w)
      else
        match names w !! name with
        | Some i => let '(fd, w') := alloc_fd name i w in (inl fd, w')
        | None =>
            match path_error name with
            | Some en => (inr (PathError "open" name en), w)
            | None =>
                if ends_in_slash name
                then (inr (PathError "open" name EISDIR), w)
                else if negb (bool_decide (filepath_Dir name ∈ dirs w))
                then (inr (PathError "open" name ENOENT), w)
                else if ends_in_dots name
                then (inr (PathError "open" name EISDIR), w)
                else
                  let i := fresh_key (inodes w) in
                  let w1 := set_inodes (<[i := []]> (inodes w)) w in
                  let w2 := set_names (<[name := i]> (names w1)) w1 in
                  let '(fd, w') := alloc_fd name i w2 in (inl fd, w')
            end
        end
  end.

Definition os_OpenFile (name : string) : World -> (nat + error) * World :=
  syscall (open_effect name) (EvOpen name).

(** [os.Rename(oldpath, newpath)] of a regular file: a directory in the
    place of the new name is an error ([EEXIST], as package [os] reports
    it); when the new name is already a name of the same file (a hard link,
    or the old name itself) nothing happens and the call succeeds; otherwise
    the file keeps its contents, gets the new name, which must be one a file
    can have ([ENOTDIR] for a name that ends in a slash, [EBUSY] for one
    that ends in a dot element), in a directory that exists, in place of the
    old, and replaces a regular file already there. *)
Definition rename_effect (old new : string) (f : option fault) (w : World)
    : option error * World :=
  match f with
  | Some ft => (Some (LinkError "rename" old new (f_errno ft)), w)
  | None =>
      match names w !! old with
      | None => (Some (LinkError "rename" old new ENOENT), w)
      | Some i =>
          if bool_decide (new ∈ dirs w)
          then (Some (LinkError "rename" old new EEXIST), w)
          else if bool_decide (names w !! new = Some i)
          then (None, w)
          else
            match path_error new with
            | Some en => (Some (LinkError "rename" old new en), w)
            | None =>
                if ends_in_slash new
                then (Some (LinkError "rename" old new ENOTDIR), w)
                else if negb (bool_decide (filepath_Dir new ∈ dirs w))
                then (Some (LinkError "rename" old new ENOENT), w)
                else if ends_in_dots new
                then (Some (LinkError "rename" old new EBUSY), w)
                else
                  (None, set_names (<[new := i]> (delete old (names w))) w)
            end
      end
  end.

Definition os_Rename (old new : string) : World -> option error * World :=
  syscall (rename_effect old new) (EvRename old new).

(** [f.Write(p)] on an [*os.File]: appends to the file.  Without a fault
    the whole of [p] is written; a fault cuts the write short and is
    reported together with the number of bytes that did get written. *)
Definition write_effect (fd : nat) (p : bytes) (f : option fault) (w : World)
    : (Z * option error) * World :=
  match fds w !! fd with
  | None => ((0, Some (PathError "write" "" EBADF)), w)
  | Some o =>
      let k := match f with
               | Some ft => Nat.min (f_partial ft) (length p)
               | None => length p
               end in
      let err := match f with
                 | Some ft => Some (PathError "write" (of_name o) (f_errno ft))
                 | None => None
                 end in
      let old := default [] (inodes w !! of_inode o) in
      let w1 := set_inodes (<[of_inode o := old ++ take k p]> (inodes w)) w in
      let o' := mkOpen (of_name o) (of_inode o) (of_written o + Z.of_nat k) in
      ((Z.of_nat k, err), set_fds (<[fd := o']> (fds w1)) w1)
  end.

(** [os.ErrInvalid], the error of a method called on a nil [*os.File]. *)
Definition os_ErrInvalid : error := errors_New "invalid argument".

Definition File_Write (f : option nat) (p : bytes) (w : World)
    : (Z * option error) * World :=
  match f with
  | None => ((0, Some os_ErrInvalid), w)
  | Some fd =>
      syscall (write_effect fd p) (fun r => EvWrite fd p (fst r) (snd r)) w
  end.

(** [f.Close()]: the handle is released even when the close reports an
    error; closing a handle that is not open is an error. *)
Definition close_effect (fd : nat) (f : option fault) (w : World)
    : option error * World :=
  match fds w !! fd with
  | None => (Some (PathError "close" "" EBADF), w)
  | Some o =>
      let err := match f with
                 | Some ft => Some (PathError "close" (of_name o) (f_errno ft))
                 | None => None
                 end in
      (err, set_fds (delete fd (fds w)) w)
  end.

Definition File_Close (fd : nat) : World -> option error * World :=
  syscall (close_effect fd) (EvClose fd).

(** [time.Now()]. *)
Definition time_Now (w : World) : Time := now w.

(** ** The package *)

Definition defaultSize : Z := 1.            (* in Mbyte of log file. *)
Definition megabyte : Z := 1024 * 1024.     (* base Mbyte. *)

(** The [Logrotate] struct.  [file] is the [*os.File], [None] for nil.  The
    mutex [mu] guards whole calls of [Write] and [Close] and has no state
    of its own between calls; it is not represented. *)
Record Logrotate : Type := mkLogrotate {
  Filename : string;
  MaxSize : Z;
  file : option nat;
  size : Z
}.

Definition set_file (f : option nat) (l : Logrotate) : Logrotate :=
  mkLogrotate (Filename l) (MaxSize l) f (size l).

Definition set_size (s : Z) (l : Logrotate) : Logrotate :=
  mkLogrotate (Filename l) (MaxSize l) (file l) s.

Definition NewLogrotate (filename : string) (size : Z) : Logrotate :=
  let size := if size <? defaultSize then defaultSize else size in
  mkLogrotate filename (Int64.mul size megabyte) None 0.

Definition backupName (l : Logrotate) (w : World) : string :=
  Filename l +:+ "." +:+ Time_Format (time_Now w).

Definition closeFile (l : Logrotate) (w : World)
    : option error * Logrotate * World :=
  match file l with
  | None => (None, l, w)
  | Some f =>
      let '(err, w') := File_Close f w in
      (err, set_file None l, w')
  end.

Definition createFile (l : Logrotate) (w : World)
    : option error * Logrotate * World :=
  let '(err, w1) := os_Stat (filepath_Dir (Filename l)) w in
  let '(err, w2) :=
    if os_IsNotExist err then os_Mkdir (filepath_Dir (Filename l)) w1
    else (None, w1) in
  match err with
  | Some e => (Some e, l, w2)
  | None =>
      let '(r, w3) := os_OpenFile (Filename l) w2 in
      match r with
      | inr e => (Some e, l, w3)
      | inl f => (None, set_size 0 (set_file (Some f) l), w3)
      end
  end.

Definition rotateFile (l : Logrotate) (w : World)
    : option error * Logrotate * World :=
  let '(err, l1, w1) := closeFile l w in
  match err with
  | Some e => (Some e, l1, w1)
  | None =>
      let '(err, w2) := os_Rename (Filename l1) (backupName l1 w1) w1 in
      match err with
      | Some e => (Some e, l1, w2)
      | None => createFile l1 w2
      end
  end.

Definition ErrTooLong : error :=
  errors_New "write length exceeds maximum file size".

(** [Write]; the result is [(n, err)] with the writer and the world after
    the call. *)
Definition Write (l : Logrotate) (p : bytes) (w : World)
    : (Z * option error) * Logrotate * World :=
  let writeLen := len p in
  if writeLen >? MaxSize l then ((0, Some ErrTooLong), l, w)
  else
    let '(err, l1, w1) :=
      match file l with
      | None => createFile l w
      | Some _ => (None, l, w)
      end in
    match err with
    | Some e => ((0, Some e), l1, w1)
    | None =>
        let '(err, l2, w2) :=
          if Int64.add writeLen (size l1) >? MaxSize l1 then rotateFile l1 w1
          else (None, l1, w1) in
        match err with
        | Some e => ((0, Some e), l2, w2)
        | None =>
            let '((n, err), w3) := File_Write (file l2) p w2 in
            ((n, err), set_size (Int64.add (size l2) n) l2, w3)
        end
    end.

Definition Close (l : Logrotate) (w : World)
    : option error * Logrotate * World :=
  closeFile l w.

#[global] Arguments os_Stat : simpl never.
#[global] Arguments os_Mkdir : simpl never.
#[global] Arguments os_OpenFile : simpl never.
#[global] Arguments os_Rename : simpl never.
#[global] Arguments File_Write : simpl never.
#[global] Arguments File_Close : simpl never.
#[global] Arguments createFile : simpl never.
#[global] Arguments rotateFile : simpl never.
#[global] Arguments closeFile : simpl never.
#[global] Arguments Write : simpl never.
#[global] Arguments Int64.add : simpl never.
#[global] Arguments Int64.mul : simpl never.
#[global] Arguments Int64.wrap : simpl never.

(** ** The state in which [Write] issues its write *)

(** The steps of [Write] between the size check and the write: the file is
    created if none is open, then rotated if the payload would take it past
    the threshold.  (A name for a part of the body of [Write].) *)
Definition before_write (l : Logrotate) (p : bytes) (w : World)
    : option error * Logrotate * World :=
  let '(err, l1, w1) :=
    match file l with
    | None => createFile l w
    | Some _ => (None, l, w)
    end in
  match err with
  | Some e => (Some e, l1, w1)
  | None =>
      if Int64.add (len p) (size l1) >? MaxSize l1 then rotateFile l1 w1
      else (None, l1, w1)
  end.

(** ** Observations on traces *)

(** The system calls a rotation makes and no other step of [Write] does:
    closing the old file and renaming it. *)
Definition is_rotation_event (ev : event) : bool :=
  match ev with
  | EvClose _ _ | EvRename _ _ _ => true
  | _ => false
  end.

Definition is_write_event (ev : event) : bool :=
  match ev with
  | EvWrite _ _ _ _ => true
  | _ => false
  end.

Definition is_close_event (ev : event) : bool :=
  match ev with
  | EvClose _ _ => true
  | _ => false
  end.

Definition is_rename_event (ev : event) : bool :=
  match ev with
  | EvRename _ _ _ => true
  | _ => false
  end.

(** Errors made by package [os], as opposed to [errors.New] values. *)
Definition is_os_error (e : error) : bool :=
  match e with
  | PathError _ _ _ | LinkError _ _ _ _ => true
  | errors_New _ => false
  end.

(** The events of a successful [createFile] for the file [path] in the
    directory [d]: the check of the directory, its creation when the check
    says it is missing, and the opening of the file. *)
Definition create_events (d path : string) (r : option error) (fd : nat)
    : list event :=
  EvStat d r ::
  (if os_IsNotExist r then [EvMkdir d None] else []) ++
  [EvOpen path (inl fd)].

(** The file-system part of the world is the same in [w] and [w']. *)
Definition same_files (w w' : World) : Prop :=
  dirs w' = dirs w /\ names w' = names w /\ inodes w' = inodes w.

(** A successful open yields a handle that was not in use, positioned on
    the file now bound to [name], with nothing written through it yet; the
    file is either the one already there, untouched, or a new empty one. *)
Definition opened (name : string) (fd : nat) (w w' : World) : Prop :=
  exists i,
    names w' !! name = Some i /\
    fds w !! fd = None /\
    fds w' = <[fd := mkOpen name i 0]> (fds w) /\
    ((names w !! name = Some i /\ names w' = names w /\ inodes w' = inodes w)
     \/ (names w !! name = None /\ inodes w !! i = None /\
         names w' = <[name := i]> (names w) /\
         inodes w' = <[i := []]> (inodes w))).

(** What a write through an open handle does to the handle and its file. *)
Definition appended (fd : nat) (p : bytes) (n : Z) (w w' : World) : Prop :=
  exists o,
    fds w !! fd = Some o /\
    fds w' = <[fd := mkOpen (of_name o) (of_inode o) (of_written o + n)]>
               (fds w) /\
    inodes w' =
      <[of_inode o :=
          default [] (inodes w !! of_inode o) ++ take (Z.to_nat n) p]>
        (inodes w).

(** The state in which a successful rotation leaves the file system before
    it re-creates the file: the old file is closed and bears the backup
    name; it has lost its old name, unless the backup name was a name of
    that very file already. *)
Definition rotated_away (fd : nat) (path backup : string) (w w2 : World)
    : Prop :=
  exists i,
    names w !! path = Some i /\
    ((names w !! backup = Some i /\ names w2 = names w) \/
     (names w !! backup <> Some i /\
      names w2 = <[backup := i]> (delete path (names w)))) /\
    inodes w2 = inodes w /\
    fds w2 = delete fd (fds w).

(** ** Failed creations and rotations *)

(** The events of a [createFile] that fails with [e]: at the creation of
    the directory, or at the opening of the file. *)
Inductive failed_create_events (d path : string)
    : error -> list event -> Prop :=
| fc_mkdir r e :
    os_IsNotExist r = true ->
    failed_create_events d path e [EvStat d r; EvMkdir d (Some e)]
| fc_open r e :
    failed_create_events d path e
      (EvStat d r ::
       (if os_IsNotExist r then [EvMkdir d None] else []) ++
       [EvOpen path (inr e)]).

(** The events of a [rotateFile] of the open file [fd] that fails with [e]:
    at the close, at the rename, or in the re-creation. *)
Inductive failed_rotation_events (fd : nat) (path backup d : string)
    : error -> list event -> Prop :=
| fr_close e :
    failed_rotation_events fd path backup d e [EvClose fd (Some e)]
| fr_rename e :
    failed_rotation_events fd path backup d e
      [EvClose fd None; EvRename path backup (Some e)]
| fr_create e evs :
    failed_create_events d path e evs ->
    failed_rotation_events fd path backup d e
      ([EvClose fd None; EvRename path backup None] ++ evs).

(** ** Reachable states *)

(** The states a writer made by [NewLogrotate filename req] can be in after
    any sequence of [Write] and [Close] calls, whatever the world does in
    between short of touching the writer's open files.  The index is the
    length of the last payload that passed the size check (0 if none did). *)
Inductive reachable (filename : string) (req : Z)
    : Z -> Logrotate -> World -> Prop :=
| reach_new w :
    reachable filename req 0 (NewLogrotate filename req) w
| reach_Write last l w p :
    reachable filename req last l w ->
    reachable filename req
      (if len p >? MaxSize l then last else len p)
      (Write l p w).1.2 (Write l p w).2
| reach_Close last l w :
    reachable filename req last l w ->
    reachable filename req last (Close l w).1.2 (Close l w).2
| reach_env last l w w' :
    reachable filename req last l w ->
    fds w' = fds w ->
    reachable filename req last l w'.

(** The counter of the writer is the number of bytes written through its
    open handle, if it has one. *)
Definition tracks_handle (l : Logrotate) (w : World) : Prop :=
  forall fd, file l = Some fd ->
             exists o, fds w !! fd = Some o /\ of_written o = size l.

(** ** Sample states *)

Definition sample_time : Time := mkTime 2024 3 9 7 5 59.

(** A writer with a threshold of 8 bytes that has not opened its file, in a
    world where the log directory exists and is empty. *)
Definition idle_writer : Logrotate := mkLogrotate "logs/app.log" 8 None 0.

Definition empty_world : World :=
  mkWorld ({["logs"]} ∪ {["."]}) ∅ ∅ ∅ sample_time [] [].

(** The same writer after it wrote six bytes. *)
Definition open_writer : Logrotate :=
  mkLogrotate "logs/app.log" 8 (Some 0%nat) 6.

Definition six_bytes : bytes :=
  [Byte.x31; Byte.x32; Byte.x33; Byte.x34; Byte.x35; Byte.x0a].

Definition open_world_with (fs : list (option fault)) : World :=
  mkWorld ({["logs"]} ∪ {["."]})
          {["logs/app.log" := 0%nat]}
          {[0%nat := six_bytes]}
          {[0%nat := mkOpen "logs/app.log" 0 6]}
          sample_time fs [].

Definition open_world : World := open_world_with [].

Definition three_bytes : bytes := [Byte.x61; Byte.x62; Byte.x0a].

Definition nine_bytes : bytes := three_bytes ++ six_bytes.

(** A writer whose file is open and empty, with a threshold of 3 bytes. *)
Definition fresh_writer : Logrotate :=
  mkLogrotate "logs/app.log" 3 (Some 0%nat) 0.

Definition fresh_world : World :=
  mkWorld ({["logs"]} ∪ {["."]})
          {["logs/app.log" := 0%nat]}
          {[0%nat := []]}
          {[0%nat := mkOpen "logs/app.log" 0 0]}
          sample_time [] [].

Definition close_fault : list (option fault) := [Some (mkFault EIO 0)].

(** The world of [open_world] in which the backup name of the coming
    rotation is already a second name (a hard link) of the log file. *)
Definition linked_world : World :=
  mkWorld ({["logs"]} ∪ {["."]})
          (<["logs/app.log.2024.03.09_07:05:59" := 0%nat]>
             {["logs/app.log" := 0%nat]})
          {[0%nat := six_bytes]}
          {[0%nat := mkOpen "logs/app.log" 0 6]}
          sample_time [] [].

(** ** Sequences of calls *)

(** The kinds of system call the package makes. *)
Inductive syscall_kind : Type :=
| KStat | KMkdir | KOpen | KRename | KWrite | KClose.

Definition kind_of (ev : event) : syscall_kind :=
  match ev with
  | EvStat _ _ => KStat
  | EvMkdir _ _ => KMkdir
  | EvOpen _ _ => KOpen
  | EvRename _ _ _ => KRename
  | EvWrite _ _ _ _ => KWrite
  | EvClose _ _ => KClose
  end.

(** The payloads [ps] written one after the other, with the results of the
    calls in order. *)
Fixpoint write_all (ps : list bytes) (l : Logrotate) (w : World)
    : list (Z * option error) * Logrotate * World :=
  match ps with
  | [] => ([], l, w)
  | p :: rest =>
      let '(r, l1, w1) := Write l p w in
      let '(rs, l2, w2) := write_all rest l1 w1 in
      (r :: rs, l2, w2)
  end.

(** The total length of the payloads. *)
Definition total_len (ps : list bytes) : Z :=
  foldr (fun p acc => len p + acc) 0 ps.

(** A call of one of the two methods of the writer. *)
Inductive call : Type :=
| CallWrite (p : bytes)
| CallClose.

Definition do_call (c : call) (l : Logrotate) (w : World)
    : Logrotate * World :=
  match c with
  | CallWrite p => ((Write l p w).1.2, (Write l p w).2)
  | CallClose => ((Close l w).1.2, (Close l w).2)
  end.

(** The calls [cs] made one after the other. *)
Fixpoint run (cs : list call) (l : Logrotate) (w : World)
    : Logrotate * World :=
  match cs with
  | [] => (l, w)
  | c :: rest => run rest (do_call c l w).1 (do_call c l w).2
  end.

(** The handles the writer holds: its open file, if any. *)
Definition handles (l : Logrotate) : gset nat :=
  match file l with
  | Some fd => {[fd]}
  | None => ∅
  end.

(** The open files of the world are those of the table [T] and, besides,
    the handle the writer holds, if it holds one. *)
Definition owns_only (T : gmap nat openfile) (l : Logrotate) (w : World)
    : Prop :=
  match file l with
  | None => fds w = T
  | Some fd => T !! fd = None /\ exists o, fds w = <[fd := o]> T
  end.

(** A clock reading whose fields fill the widths of the layout: a year of
    at most four digits, the other fields of at most two. *)
Definition fits_layout (t : Time) : Prop :=
  (year t < 10 ^ 4)%nat /\ (month t < 10 ^ 2)%nat /\ (day t < 10 ^ 2)%nat /\
  (hour t < 10 ^ 2)%nat /\ (minute t < 10 ^ 2)%nat /\
  (second t < 10 ^ 2)%nat.

(** A path in clean form under which a regular file can be created.  The
    world binds files to the paths as they are written, so that it is of a
    clean path that it tells whether there is a file. *)
Definition plain_path (path : string) : Prop :=
  filepath_Clean path = path /\ name_error path = None.

(** A world without pending faults in which the log file can be created or
    opened: its directory exists and the path is not taken by a directory. *)
Definition healthy (l : Logrotate) (w : World) : Prop :=
  faults w = [] /\
  filepath_Dir (Filename l) ∈ dirs w /\
  Filename l ∉ dirs w.

(** A fault at the first, second and fourth system call to come. *)
Definition first_fault : list (option fault) := [Some (mkFault EACCES 0)].

Definition second_fault : list (option fault) :=
  [None; Some (mkFault EACCES 0)].

Definition fourth_fault : list (option fault) :=
  [None; None; None; Some (mkFault EACCES 0)].

Definition empty_world_with (fs : list (option fault)) : World :=
  mkWorld ({["logs"]} ∪ {["."]}) ∅ ∅ ∅ sample_time fs [].

(** ** Arithmetic of [int64] *)

Lemma wrap_in_range z : Int64.in_range z -> Int64.wrap z = z.
Proof.
  unfold Int64.in_range, Int64.wrap, Int64.min_int, Int64.max_int.
  intros H. rewrite Z.mod_small; lia.
Qed.

(** Wrapping never increases a number that is not below the least [int64]. *)
Lemma wrap_le z : Int64.min_int <= z -> Int64.wrap z <= z.
Proof.
  unfold Int64.wrap, Int64.min_int. intros H.
  pose proof (Z.mod_le (z + 2 ^ 63) (2 ^ 64)). lia.
Qed.

Lemma add_exact a b :
  Int64.in_range (a + b) -> Int64.add a b = a + b.
Proof. apply wrap_in_range. Qed.

Lemma len_nonneg p : 0 <= len p.
Proof. unfold len. lia. Qed.

Lemma gtb_true a b : a > b -> (a >? b) = true.
Proof. destruct (Z.gtb_spec a b); [done|lia]. Qed.

Lemma gtb_false a b : a <= b -> (a >? b) = false.
Proof. destruct (Z.gtb_spec a b); [lia|done]. Qed.

Lemma string_length_app (s t : string) :
  String.length (s +:+ t) = (String.length s + String.length t)%nat.
Proof. induction s as [|c s IH]; simpl; [done|by rewrite IH]. Qed.

(** ** What each system call does *)

Ltac unfold_syscall :=
  unfold syscall, next_fault, log, alloc_fd, set_dirs, set_names, set_inodes,
    set_fds, same_files in *.

Ltac crush_syscall :=
  unfold_syscall;
  repeat (case_match; simplify_eq /=);
  repeat split; eauto.

Lemma os_Stat_spec name w r w' :
  os_Stat name w = (r, w') ->
  trace w' = trace w ++ [EvStat name r] /\ same_files w w' /\
  fds w' = fds w /\ now w' = now w.
Proof. unfold os_Stat, stat_effect. intros H. crush_syscall. Qed.

Lemma os_Mkdir_spec name w r w' :
  os_Mkdir name w = (r, w') ->
  trace w' = trace w ++ [EvMkdir name r] /\
  names w' = names w /\ inodes w' = inodes w /\
  fds w' = fds w /\ now w' = now w.
Proof. unfold os_Mkdir, mkdir_effect. intros H. crush_syscall. Qed.

Lemma fresh_key_None {V} (m : gmap nat V) : m !! fresh_key m = None.
Proof.
  unfold fresh_key. apply not_elem_of_dom. apply is_fresh.
Qed.

Lemma os_OpenFile_spec name w r w' :
  os_OpenFile name w = (r, w') ->
  trace w' = trace w ++ [EvOpen name r] /\ dirs w' = dirs w /\
  now w' = now w /\
  match r with
  | inl fd => opened name fd w w'
  | inr _ => names w' = names w /\ inodes w' = inodes w /\ fds w' = fds w
  end.
Proof.
  unfold os_OpenFile, open_effect, opened. intros H.
  unfold_syscall.
  repeat (case_match; simplify_eq /=); repeat split; eauto.
  all: eexists; split_and!;
    [ first [eassumption | apply lookup_insert_eq]
    | apply fresh_key_None
    | reflexivity
    | first [ left; split_and!; by eauto
            | right; split_and!; by eauto using fresh_key_None ] ].
Qed.

Lemma os_Rename_spec old new w r w' :
  os_Rename old new w = (r, w') ->
  trace w' = trace w ++ [EvRename old new r] /\
  dirs w' = dirs w /\ inodes w' = inodes w /\
  fds w' = fds w /\ now w' = now w /\
  match r with
  | Some _ => names w' = names w
  | None =>
      exists i,
        names w !! old = Some i /\
        ((names w !! new = Some i /\ names w' = names w) \/
         (names w !! new <> Some i /\
          names w' = <[new := i]> (delete old (names w))))
  end.
Proof.
  unfold os_Rename, rename_effect. intros H. unfold_syscall.
  repeat (case_match; simplify_eq /=); split_and!; eauto.
  all: eexists; split; [done|].
  all: first [ left; split; [by eapply bool_decide_eq_true_1|done]
             | right; split; [by eapply bool_decide_eq_false_1|done] ].
Qed.

Lemma File_Close_spec fd w r w' :
  File_Close fd w = (r, w') ->
  trace w' = trace w ++ [EvClose fd r] /\ same_files w w' /\
  fds w' = delete fd (fds w) /\ now w' = now w.
Proof.
  unfold File_Close, close_effect. intros H. crush_syscall.
  all: symmetry; by apply delete_id.
Qed.

Lemma File_Write_spec fd p w n err w' :
  File_Write (Some fd) p w = ((n, err), w') ->
  trace w' = trace w ++ [EvWrite fd p n err] /\
  dirs w' = dirs w /\ names w' = names w /\ now w' = now w /\
  0 <= n <= len p /\ (n < len p -> is_Some err) /\
  (appended fd p n w w' \/
   (fds w !! fd = None /\ n = 0 /\ is_Some err /\
    inodes w' = inodes w /\ fds w' = fds w)).
Proof.
  unfold File_Write, write_effect, appended, len. intros H.
  unfold_syscall.
  repeat (case_match; simplify_eq /=); split_and!; eauto; try lia.
  all: try (intros; lia).
  all: try (left; eexists; split_and!; eauto; by rewrite Nat2Z.id).
  all: right; split_and!; eauto.
Qed.

Lemma opened_from name fd w0 w w' :
  names w = names w0 -> inodes w = inodes w0 -> fds w = fds w0 ->
  opened name fd w w' -> opened name fd w0 w'.
Proof.
  unfold opened. intros Hn Hi Hf (i & H). exists i.
  by rewrite <- Hn, <- Hi, <- Hf.
Qed.

(** ** Where errors come from *)

Lemma os_Mkdir_error name w e w' :
  os_Mkdir name w = (Some e, w') -> is_os_error e = true.
Proof. unfold os_Mkdir, mkdir_effect. intros H. crush_syscall. Qed.

Lemma os_OpenFile_error name w e w' :
  os_OpenFile name w = (inr e, w') -> is_os_error e = true.
Proof. unfold os_OpenFile, open_effect. intros H. crush_syscall. Qed.

Lemma os_Rename_error old new w e w' :
  os_Rename old new w = (Some e, w') -> is_os_error e = true.
Proof. unfold os_Rename, rename_effect. intros H. crush_syscall. Qed.

Lemma File_Close_error fd w e w' :
  File_Close fd w = (Some e, w') -> is_os_error e = true.
Proof. unfold File_Close, close_effect. intros H. crush_syscall. Qed.

Lemma File_Write_error f p w n e w' :
  File_Write f p w = ((n, Some e), w') -> e <> ErrTooLong.
Proof.
  unfold File_Write, write_effect. intros H.
  destruct f; [|by simplify_eq]. crush_syscall.
Qed.

Lemma File_Write_os_error fd p w n e w' :
  File_Write (Some fd) p w = ((n, Some e), w') -> is_os_error e = true.
Proof. unfold File_Write, write_effect. intros H. crush_syscall. Qed.

(** ** The internal operations *)

Lemma closeFile_closed l w :
  file l = None -> closeFile l w = (None, l, w).
Proof. unfold closeFile. by intros ->. Qed.

Lemma closeFile_open l w fd :
  file l = Some fd ->
  closeFile l w =
    (fst (File_Close fd w), set_file None l, snd (File_Close fd w)).
Proof.
  unfold closeFile. intros ->. by destruct (File_Close fd w).
Qed.

Lemma closeFile_file l w : file (closeFile l w).1.2 = None.
Proof.
  unfold closeFile. destruct (file l) eqn:E; simpl; [|done].
  by destruct (File_Close n w).
Qed.

Lemma createFile_spec l w err l' w' :
  createFile l w = (err, l', w') ->
  let d := filepath_Dir (Filename l) in
  now w' = now w /\
  match err with
  | None =>
      exists r fd,
        trace w' = trace w ++ create_events d (Filename l) r fd /\
        l' = set_size 0 (set_file (Some fd) l) /\
        opened (Filename l) fd w w'
  | Some e =>
      l' = l /\ names w' = names w /\ inodes w' = inodes w /\
      fds w' = fds w /\
      exists evs, trace w' = trace w ++ evs /\
                  failed_create_events d (Filename l) e evs
  end.
Proof.
  intros H. unfold createFile in H. cbv zeta.
  set (d := filepath_Dir (Filename l)) in *.
  destruct (os_Stat d w) as [r w1] eqn:Hstat.
  apply os_Stat_spec in Hstat as (Ht1 & (Hd1 & Hn1 & Hi1) & Hf1 & Hc1).
  destruct (os_IsNotExist r) eqn:Hne.
  - destruct (os_Mkdir d w1) as [r2 w2] eqn:Hmk.
    apply os_Mkdir_spec in Hmk as (Ht2 & Hn2 & Hi2 & Hf2 & Hc2).
    destruct r2 as [e|].
    + simplify_eq. split; [congruence|]. split_and!; try congruence.
      eexists. split; [|by apply (fc_mkdir d (Filename l') r e)].
      rewrite Ht2, Ht1, <- app_assoc. done.
    + destruct (os_OpenFile (Filename l) w2) as [r3 w3] eqn:Hop.
      apply os_OpenFile_spec in Hop as (Ht3 & Hd3 & Hc3 & Hr3).
      destruct r3 as [fd|e]; simplify_eq.
      * split; [congruence|]. exists r, fd. split_and!; [|done|].
        -- rewrite Ht3, Ht2, Ht1. unfold create_events. rewrite Hne.
           rewrite <- !app_assoc. done.
        -- eapply opened_from; [| | |exact Hr3]; congruence.
      * destruct Hr3 as (Hn3 & Hi3 & Hf3).
        split; [congruence|]. split_and!; try congruence.
        eexists. split; [|apply (fc_open d (Filename l') r e)].
        rewrite Ht3, Ht2, Ht1, Hne. rewrite <- !app_assoc. done.
  - destruct (os_OpenFile (Filename l) w1) as [r3 w3] eqn:Hop.
    apply os_OpenFile_spec in Hop as (Ht3 & Hd3 & Hc3 & Hr3).
    destruct r3 as [fd|e]; simplify_eq.
    + split; [congruence|]. exists r, fd. split_and!; [|done|].
      * rewrite Ht3, Ht1. unfold create_events. rewrite Hne.
        rewrite <- !app_assoc. done.
      * eapply opened_from; [| | |exact Hr3]; congruence.
    + destruct Hr3 as (Hn3 & Hi3 & Hf3).
      split; [congruence|]. split_and!; try congruence.
      eexists. split; [|apply (fc_open d (Filename l') r e)].
      rewrite Ht3, Ht1, Hne. rewrite <- !app_assoc. done.
Qed.

Lemma backupName_frame l w l' w' :
  Filename l' = Filename l -> now w' = now w ->
  backupName l' w' = backupName l w.
Proof. unfold backupName, time_Now. by intros -> ->. Qed.

Lemma rotateFile_spec l w fd err l' w' :
  file l = Some fd ->
  rotateFile l w = (err, l', w') ->
  let path := Filename l in
  let backup := backupName l w in
  let d := filepath_Dir path in
  now w' = now w /\
  match err with
  | None =>
      exists r fd' w2,
        trace w' =
          trace w ++ [EvClose fd None; EvRename path backup None] ++
          create_events d path r fd' /\
        l' = set_size 0 (set_file (Some fd') l) /\
        rotated_away fd path backup w w2 /\
        opened path fd' w2 w'
  | Some e =>
      l' = set_file None l /\ inodes w' = inodes w /\
      fds w' = delete fd (fds w) /\
      exists evs, trace w' = trace w ++ evs /\
                  failed_rotation_events fd path backup d e evs
  end.
Proof.
  intros Hfile H. unfold rotateFile in H. cbv zeta.
  rewrite (closeFile_open _ _ _ Hfile) in H.
  destruct (File_Close fd w) as [rc w1] eqn:Hcl. simpl in H.
  apply File_Close_spec in Hcl as (Ht1 & (Hd1 & Hn1 & Hi1) & Hf1 & Hc1).
  destruct rc as [e|].
  { simplify_eq. split_and!; try done.
    eexists. split; [exact Ht1|]. apply fr_close. }
  rewrite (backupName_frame l w) in H by done.
  destruct (os_Rename _ _ w1) as [rr w2] eqn:Hrn. simpl in Hrn.
  apply os_Rename_spec in Hrn as (Ht2 & Hd2 & Hi2 & Hf2 & Hc2 & Hr2).
  destruct rr as [e|].
  { simplify_eq. split_and!; try congruence.
    eexists. split; [|apply fr_rename].
    rewrite Ht2, Ht1, <- app_assoc. done. }
  destruct Hr2 as (i & Hold & Hn2).
  apply createFile_spec in H as (Hc3 & H). simpl in H.
  destruct err as [e|].
  - destruct H as (-> & Hn3 & Hi3 & Hf3 & evs & Ht3 & Hev).
    split_and!; try congruence.
    eexists. split; [|apply fr_create, Hev].
    rewrite Ht3, Ht2, Ht1, <- !app_assoc. done.
  - destruct H as (r & fd' & Ht3 & -> & Hop).
    split; [congruence|]. exists r, fd', w2. split_and!; try done.
    + rewrite Ht3, Ht2, Ht1, <- !app_assoc. done.
    + exists i. split_and!; congruence.
Qed.

Lemma failed_create_no_rotation d path e evs :
  failed_create_events d path e evs ->
  List.filter is_rotation_event evs = [] /\ List.filter is_write_event evs = [].
Proof.
  destruct 1; [done|]. by destruct (os_IsNotExist r).
Qed.

Lemma create_events_no_rotation d path r fd :
  List.filter is_rotation_event (create_events d path r fd) = [] /\
  List.filter is_write_event (create_events d path r fd) = [].
Proof. unfold create_events. by destruct (os_IsNotExist r). Qed.

Lemma failed_create_counts d path e evs :
  failed_create_events d path e evs ->
  List.filter is_close_event evs = [] /\ List.filter is_rename_event evs = [].
Proof. destruct 1; [done|]. by destruct (os_IsNotExist r). Qed.

Lemma create_events_counts d path r fd :
  List.filter is_close_event (create_events d path r fd) = [] /\
  List.filter is_rename_event (create_events d path r fd) = [].
Proof. unfold create_events. by destruct (os_IsNotExist r). Qed.

Lemma failed_rotation_counts fd path backup d e evs :
  failed_rotation_events fd path backup d e evs ->
  length (List.filter is_close_event evs) = 1%nat /\
  (length (List.filter is_rename_event evs) <= 1)%nat /\
  List.filter is_write_event evs = [].
Proof.
  destruct 1 as [e|e|e evs H]; [simpl; split_and!; (done || lia)..|].
  destruct (failed_create_counts _ _ _ _ H) as [Hc Hr].
  destruct (failed_create_no_rotation _ _ _ _ H) as [_ Hw].
  rewrite !List.filter_app, Hc, Hr, Hw. simpl. split_and!; (done || lia).
Qed.

Lemma create_events_last d path r fd :
  exists pre, create_events d path r fd = pre ++ [EvOpen path (inl fd)].
Proof.
  unfold create_events.
  exists (EvStat d r :: (if os_IsNotExist r then [EvMkdir d None] else [])).
  done.
Qed.

Lemma backupName_ne l w : backupName l w <> Filename l.
Proof.
  unfold backupName. intros H.
  apply (f_equal String.length) in H.
  rewrite !string_length_app in H. simpl in H. lia.
Qed.

Lemma createFile_error l w e l' w' :
  createFile l w = (Some e, l', w') -> is_os_error e = true.
Proof.
  unfold createFile. intros H.
  destruct (os_Stat _ w) as [r w1].
  destruct (os_IsNotExist r).
  - destruct (os_Mkdir _ w1) as [[e2|] w2] eqn:Hmk.
    + simplify_eq. eauto using os_Mkdir_error.
    + destruct (os_OpenFile _ w2) as [[fd|e3] w3] eqn:Hop; simplify_eq.
      eauto using os_OpenFile_error.
  - destruct (os_OpenFile _ w1) as [[fd|e3] w3] eqn:Hop; simplify_eq.
    eauto using os_OpenFile_error.
Qed.

Lemma rotateFile_error l w e l' w' :
  rotateFile l w = (Some e, l', w') -> is_os_error e = true.
Proof.
  unfold rotateFile, closeFile. intros H.
  destruct (file l) as [fd|].
  - destruct (File_Close fd w) as [[e1|] w1] eqn:Hcl.
    + simplify_eq. eauto using File_Close_error.
    + destruct (os_Rename _ _ w1) as [[e2|] w2] eqn:Hrn.
      * simplify_eq. eauto using os_Rename_error.
      * eauto using createFile_error.
  - destruct (os_Rename _ _ w) as [[e2|] w2] eqn:Hrn.
    + simplify_eq. eauto using os_Rename_error.
    + eauto using createFile_error.
Qed.

(** ** [Write], step by step *)

(** A rotation fails only where one of its three steps fails. *)
Lemma rotateFile_failed_step l w fd e l' w' :
  file l = Some fd ->
  rotateFile l w = (Some e, l', w') ->
  File_Close fd w = (Some e, w') \/
  exists w1,
    File_Close fd w = (None, w1) /\
    (os_Rename (Filename l) (backupName l w) w1 = (Some e, w') \/
     exists w2,
       os_Rename (Filename l) (backupName l w) w1 = (None, w2) /\
       createFile (set_file None l) w2 = (Some e, set_file None l, w')).
Proof.
  intros Hfile H. unfold rotateFile in H.
  rewrite (closeFile_open _ _ _ Hfile) in H.
  destruct (File_Close fd w) as [[e1|] w1] eqn:Hcl; simpl in H.
  { left. by simplify_eq. }
  right. exists w1. split; [done|].
  apply File_Close_spec in Hcl as (_ & _ & _ & Hnow).
  rewrite (backupName_frame l w) in H by done.
  change (Filename (set_file None l)) with (Filename l) in H.
  destruct (os_Rename _ _ w1) as [[e2|] w2] eqn:Hrn.
  { left. by simplify_eq. }
  right. exists w2. split; [done|].
  pose proof (createFile_spec _ _ _ _ _ H) as [_ (-> & _)]. done.
Qed.

(** The part of [Write] that follows the size check. *)
Lemma Write_accepted l p w :
  len p <= MaxSize l ->
  Write l p w =
    let '(err, l1, w1) :=
      match file l with
      | None => createFile l w
      | Some _ => (None, l, w)
      end in
    match err with
    | Some e => ((0, Some e), l1, w1)
    | None =>
        let '(err, l2, w2) :=
          if Int64.add (len p) (size l1) >? MaxSize l1 then rotateFile l1 w1
          else (None, l1, w1) in
        match err with
        | Some e => ((0, Some e), l2, w2)
        | None =>
            let '((n, err), w3) := File_Write (file l2) p w2 in
            ((n, err), set_size (Int64.add (size l2) n) l2, w3)
        end
    end.
Proof. intros H. unfold Write. by rewrite gtb_false. Qed.

(** The test [writeLen+l.size > l.MaxSize] is the test on the exact sum
    whenever that sum is an [int64]; this is so in every state with
    [0 <= size l <= MaxSize l < 2^62] and [len p <= MaxSize l]. *)
Lemma rotation_test_exact l p :
  Int64.in_range (len p + size l) ->
  Int64.add (len p) (size l) > MaxSize l <-> size l + len p > MaxSize l.
Proof. intros H. rewrite add_exact by done. lia. Qed.

(** With an open file and the threshold about to be passed, [Write] is one
    rotation followed, if the rotation succeeds, by the write. *)
Lemma Write_rotating l p w fd :
  file l = Some fd ->
  len p <= MaxSize l ->
  Int64.add (len p) (size l) > MaxSize l ->
  Write l p w =
    let '(err, l2, w2) := rotateFile l w in
    match err with
    | Some e => ((0, Some e), l2, w2)
    | None =>
        let '((n, err), w3) := File_Write (file l2) p w2 in
        ((n, err), set_size (Int64.add (size l2) n) l2, w3)
    end.
Proof.
  intros Hf Hlen Htrig. rewrite Write_accepted by done.
  rewrite Hf. by rewrite gtb_true.
Qed.

Lemma Write_rejected l p w :
  len p > MaxSize l ->
  Write l p w = ((0, Some ErrTooLong), l, w).
Proof. intros H. unfold Write. by rewrite gtb_true. Qed.

Lemma Write_before_write l p w :
  len p <= MaxSize l ->
  Write l p w =
    let '(err, l2, w2) := before_write l p w in
    match err with
    | Some e => ((0, Some e), l2, w2)
    | None =>
        let '((n, err), w3) := File_Write (file l2) p w2 in
        ((n, err), set_size (Int64.add (size l2) n) l2, w3)
    end.
Proof.
  intros H. rewrite Write_accepted by done. unfold before_write.
  destruct (match file l with
            | None => createFile l w
            | Some _ => (None, l, w)
            end) as [[[e|] l1] w1]; [done|].
  destruct (Int64.add (len p) (size l1) >? MaxSize l1); [|done].
  by destruct (rotateFile l1 w1) as [[[e|] l2] w2].
Qed.

(** A payload that fits the threshold never calls for a rotation of a file
    whose counter is 0. *)
Lemma no_rotation_at_zero p m :
  len p <= m -> (Int64.add (len p) 0 >? m) = false.
Proof.
  intros H. apply gtb_false. unfold Int64.add.
  pose proof (len_nonneg p).
  pose proof (wrap_le (len p + 0)) as Hw.
  unfold Int64.min_int in Hw. lia.
Qed.

Lemma before_write_spec l p w err l2 w2 :
  len p <= MaxSize l ->
  before_write l p w = (err, l2, w2) ->
  let path := Filename l in
  let d := filepath_Dir path in
  let backup := backupName l w in
  exists evs,
    trace w2 = trace w ++ evs /\
    List.filter is_write_event evs = [] /\
    match err with
    | Some e =>
        (l2 = l /\ file l = None /\ fds w2 = fds w /\
         failed_create_events d path e evs)
        \/
        (exists fd0,
           file l = Some fd0 /\ l2 = set_file None l /\
           Int64.add (len p) (size l) > MaxSize l /\
           failed_rotation_events fd0 path backup d e evs)
    | None =>
        (exists fd,
           file l = Some fd /\ l2 = l /\ w2 = w /\ evs = [] /\
           Int64.add (len p) (size l) <= MaxSize l)
        \/
        (exists r fd,
           file l = None /\ l2 = set_size 0 (set_file (Some fd) l) /\
           evs = create_events d path r fd /\
           opened path fd w w2)
        \/
        (exists r fd0 fd w1,
           file l = Some fd0 /\ l2 = set_size 0 (set_file (Some fd) l) /\
           Int64.add (len p) (size l) > MaxSize l /\
           evs = [EvClose fd0 None; EvRename path backup None] ++
                 create_events d path r fd /\
           rotated_away fd0 path backup w w1 /\
           opened path fd w1 w2)
    end.
Proof.
  intros Hlen H. cbv zeta. unfold before_write in H.
  destruct (file l) as [fd0|] eqn:Hfile.
  - destruct (Z.gtb_spec (Int64.add (len p) (size l)) (MaxSize l)) as [Hgt|Hle].
    + apply (rotateFile_spec _ _ _ _ _ _ Hfile) in H as [_ H].
      destruct err as [e|].
      * destruct H as (-> & _ & _ & evs & Ht & Hev).
        exists evs. split_and!; [done| |].
        -- by destruct (failed_rotation_counts _ _ _ _ _ _ Hev) as (_ & _ & ?).
        -- right. exists fd0. split_and!; (done || lia).
      * destruct H as (r & fd & w1 & Ht & -> & Haway & Hop).
        eexists. split_and!; [exact Ht| |].
        -- simpl. apply create_events_no_rotation.
        -- right. right. exists r, fd0, fd, w1. split_and!; (done || lia).
    + simplify_eq. exists []. rewrite app_nil_r. split_and!; [done..|].
      left. exists fd0. done.
  - destruct (createFile l w) as [[[e|] l1] w1] eqn:Hcr.
    + simplify_eq. apply createFile_spec in Hcr as [_ Hcr].
      destruct Hcr as (-> & _ & _ & Hf & evs & Ht & Hev).
      exists evs. split_and!; [done| |].
      * by destruct (failed_create_no_rotation _ _ _ _ Hev).
      * left. done.
    + apply createFile_spec in Hcr as [_ Hcr].
      destruct Hcr as (r & fd & Ht & -> & Hop).
      simpl in H. rewrite no_rotation_at_zero in H by done. simplify_eq.
      eexists. split_and!; [exact Ht| |].
      * apply create_events_no_rotation.
      * right. left. exists r, fd. done.
Qed.

Lemma before_write_error l p w e l' w' :
  before_write l p w = (Some e, l', w') -> is_os_error e = true.
Proof.
  unfold before_write. intros H.
  destruct (file l).
  - destruct (_ >? _); [|done]. eauto using rotateFile_error.
  - destruct (createFile l w) as [[[e1|] l1] w1] eqn:Hcr.
    + simplify_eq. eauto using createFile_error.
    + destruct (_ >? _); [|done]. eauto using rotateFile_error.
Qed.

(** The steps before the write fail only where the creation of the file
    fails, for a writer without a file, or where the rotation fails, for a
    writer whose file the payload would take past the threshold. *)
Lemma before_write_failed l p w e l2 w2 :
  len p <= MaxSize l ->
  before_write l p w = (Some e, l2, w2) ->
  (file l = None /\ createFile l w = (Some e, l2, w2)) \/
  (exists fd,
     file l = Some fd /\ Int64.add (len p) (size l) > MaxSize l /\
     rotateFile l w = (Some e, l2, w2)).
Proof.
  intros Hlen H. unfold before_write in H.
  destruct (file l) as [fd|] eqn:Hfile.
  - destruct (_ >? _) eqn:Hg; [|done].
    apply Z.gtb_lt in Hg. right. exists fd. split_and!; [done|lia|done].
  - destruct (createFile l w) as [[[e1|] l1] w1] eqn:Hcr.
    + left. by simplify_eq.
    + apply createFile_spec in Hcr as [_ (r & fd & _ & -> & _)].
      simpl in H. by rewrite no_rotation_at_zero in H.
Qed.

(** After the steps before the write have succeeded the writer holds a
    file. *)
Lemma before_write_file l p w l2 w2 :
  len p <= MaxSize l ->
  before_write l p w = (None, l2, w2) ->
  exists fd, file l2 = Some fd.
Proof.
  intros Hlen H. apply before_write_spec in H as (evs & _ & _ & H); [|done].
  destruct H as [(fd & Hf & -> & _)
                |[(r & fd & _ & -> & _)|(r & fd0 & fd & w1 & _ & -> & _)]];
    by exists fd.
Qed.

(** A payload that passes the size check is never answered with the error
    of the size check. *)
Lemma Write_accepted_error l p w :
  len p <= MaxSize l -> (Write l p w).1.1.2 <> Some ErrTooLong.
Proof.
  intros Hlen. rewrite Write_before_write by done.
  destruct (before_write l p w) as [[[e|] l2] w2] eqn:Hb.
  - simpl. intros [= ->]. by apply before_write_error in Hb.
  - destruct (File_Write (file l2) p w2) as [[n [e|]] w3] eqn:Hwr; simpl;
      [|done].
    intros [= ->]. by eapply File_Write_error in Hwr.
Qed.

(** ** [NewLogrotate] and the invariant of the counter *)

Lemma NewLogrotate_small filename req :
  req < 2 ^ 43 ->
  NewLogrotate filename req =
    mkLogrotate filename (Z.max req 1 * 1048576) None 0 /\
  1048576 <= MaxSize (NewLogrotate filename req).
Proof.
  intros H. unfold NewLogrotate, defaultSize, megabyte, Int64.mul.
  assert (E : (if req <? 1 then 1 else req) = Z.max req 1).
  { destruct (Z.ltb_spec req 1); lia. }
  rewrite E. rewrite wrap_in_range.
  - split; [done|]. simpl. lia.
  - unfold Int64.in_range, Int64.min_int, Int64.max_int. lia.
Qed.

(** One accepted [Write] keeps the counter within the threshold and in step
    with the open handle, as long as the threshold is small enough for the
    sums not to overflow. *)
Lemma Write_invariant l p w :
  MaxSize l < 2 ^ 62 ->
  0 <= size l <= MaxSize l ->
  tracks_handle l w ->
  MaxSize (Write l p w).1.2 = MaxSize l /\
  0 <= size (Write l p w).1.2 <= MaxSize l /\
  tracks_handle (Write l p w).1.2 (Write l p w).2.
Proof.
  intros Hmax Hsz Htr.
  destruct (Z.gtb_spec (len p) (MaxSize l)) as [Hgt|Hle].
  { rewrite Write_rejected by lia. done. }
  pose proof (len_nonneg p) as Hp.
  rewrite Write_before_write by done.
  destruct (before_write l p w) as [[eb l2] w2] eqn:Hb.
  apply before_write_spec in Hb as (pre & Ht & Hnw & Hb); [|done].
  destruct eb as [e|]; simpl.
  { destruct Hb as [(-> & Hnone & _)|(fd0 & _ & -> & _)].
    - do 2 (split; [done|]). intros fd Hfd. congruence.
    - do 2 (split; [done|]). intros fd Hfd. done. }
  destruct Hb as [(fd & Hfile & -> & -> & -> & Hno)
                 |[(r & fd & _ & -> & -> & Hop)
                  |(r & fd0 & fd & w1 & _ & -> & _ & -> & _ & Hop)]].
  - rewrite Hfile.
    destruct (File_Write (Some fd) p w) as [[n err] w3] eqn:Hwr.
    apply File_Write_spec in Hwr as (_ & _ & _ & _ & Hn & _ & Hwr). simpl.
    rewrite add_exact in Hno
      by (unfold Int64.in_range, Int64.min_int, Int64.max_int; lia).
    rewrite add_exact
      by (unfold Int64.in_range, Int64.min_int, Int64.max_int; lia).
    do 2 (split; [simpl; lia|]).
    intros fd' Hfd'. simpl in Hfd'. simplify_eq. simpl.
    destruct (Htr fd Hfile) as (o & Ho & Hw).
    destruct Hwr as [(o' & Ho' & Hf & _)|(Hbad & _)]; [|congruence].
    simplify_eq. rewrite Hf, lookup_insert_eq. eexists. split; [done|].
    simpl. lia.
  - simpl.
    destruct (File_Write (Some fd) p w2) as [[n err] w3] eqn:Hwr.
    apply File_Write_spec in Hwr as (_ & _ & _ & _ & Hn & _ & Hwr). simpl.
    rewrite add_exact
      by (unfold Int64.in_range, Int64.min_int, Int64.max_int; lia).
    do 2 (split; [simpl; lia|]).
    intros fd' Hfd'. simpl in Hfd'. simplify_eq. simpl.
    destruct Hop as (i & _ & _ & Hf2 & _).
    destruct Hwr as [(o' & Ho' & Hf & _)|(Hbad & _)].
    + rewrite Hf2, lookup_insert_eq in Ho'. simplify_eq.
      rewrite Hf, lookup_insert_eq. eexists. split; [done|]. simpl. lia.
    + by rewrite Hf2, lookup_insert_eq in Hbad.
  - simpl.
    destruct (File_Write (Some fd) p w2) as [[n err] w3] eqn:Hwr.
    apply File_Write_spec in Hwr as (_ & _ & _ & _ & Hn & _ & Hwr). simpl.
    rewrite add_exact
      by (unfold Int64.in_range, Int64.min_int, Int64.max_int; lia).
    do 2 (split; [simpl; lia|]).
    intros fd' Hfd'. simpl in Hfd'. simplify_eq. simpl.
    destruct Hop as (i & _ & _ & Hf2 & _).
    destruct Hwr as [(o' & Ho' & Hf & _)|(Hbad & _)].
    + rewrite Hf2, lookup_insert_eq in Ho'. simplify_eq.
      rewrite Hf, lookup_insert_eq. eexists. split; [done|]. simpl. lia.
    + by rewrite Hf2, lookup_insert_eq in Hbad.
Qed.

Lemma reachable_invariant filename req last l w :
  req < 2 ^ 42 ->
  reachable filename req last l w ->
  MaxSize l = Z.max req 1 * 1048576 /\
  0 <= size l <= MaxSize l /\
  0 <= last /\
  tracks_handle l w.
Proof.
  intros Hreq. induction 1 as [w|last l w p _ IH|last l w _ IH|last l w w' _ IH Hf].
  - destruct (NewLogrotate_small filename req) as [-> _]; [lia|].
    simpl. do 3 (split; [lia|]). intros fd Hfd. done.
  - destruct IH as (HM & Hs & Hl & Htr).
    destruct (Write_invariant l p w) as (HM' & Hs' & Htr'); [lia|done..|].
    pose proof (len_nonneg p).
    split; [congruence|]. split; [lia|].
    split; [by destruct (len p >? MaxSize l)|done].
  - destruct IH as (HM & Hs & Hl & Htr). unfold Close.
    destruct (file l) as [fd|] eqn:Hfile.
    + rewrite (closeFile_open _ _ _ Hfile). simpl.
      do 3 (split; [done|]). intros fd' Hfd'. done.
    + rewrite closeFile_closed by done. done.
  - destruct IH as (HM & Hs & Hl & Htr).
    do 3 (split; [done|]). intros fd Hfd. rewrite Hf. by apply Htr.
Qed.

(** ** The model at work *)

Example Time_Format_sample : Time_Format sample_time = "2024.03.09_07:05:59".
Proof. reflexivity. Qed.

(** A year of more than four digits is printed in full. *)
Example Time_Format_wide_year :
  Time_Format (mkTime (12 * 1000 + 345) 3 9 7 5 59) = "12345.03.09_07:05:59".
Proof. vm_compute. reflexivity. Qed.

Example filepath_Dir_samples :
  filepath_Dir "logs/app.log" = "logs" /\
  filepath_Dir "/var/log/app.log" = "/var/log" /\
  filepath_Dir "/app.log" = "/" /\
  filepath_Dir "app.log" = ".".
Proof. by split_and!. Qed.

(** The directory is returned in clean form. *)
Example filepath_Dir_cleans :
  filepath_Dir "logs//app.log" = "logs" /\
  filepath_Dir "a/b/../c.log" = "a" /\
  filepath_Dir "a/./b/c.log" = "a/b" /\
  filepath_Dir "../app.log" = ".." /\
  filepath_Dir "logs/" = "logs" /\
  filepath_Dir "" = "." /\
  filepath_Dir "/" = "/".
Proof. vm_compute. by split_and!. Qed.

Example filepath_Clean_samples :
  filepath_Clean "abc//def//ghi" = "abc/def/ghi" /\
  filepath_Clean "abc/./def" = "abc/def" /\
  filepath_Clean "abc/def/../ghi/../jkl" = "abc/jkl" /\
  filepath_Clean "abc/def/../../.." = ".." /\
  filepath_Clean "/abc/def/../../.." = "/" /\
  filepath_Clean "abc/./../def" = "def" /\
  filepath_Clean "../../abc" = "../../abc" /\
  filepath_Clean "abc/" = "abc" /\
  filepath_Clean "" = ".".
Proof. vm_compute. by split_and!. Qed.

Example NewLogrotate_default :
  NewLogrotate "logs/app.log" 0 = mkLogrotate "logs/app.log" 1048576 None 0.
Proof. reflexivity. Qed.

(** The first write creates the file lazily. *)
Example first_write :
  (Write idle_writer three_bytes empty_world).1 =
    ((3, None), mkLogrotate "logs/app.log" 8 (Some 0%nat) 3) /\
  trace (Write idle_writer three_bytes empty_world).2 =
    [EvStat "logs" None; EvOpen "logs/app.log" (inl 0%nat);
     EvWrite 0 three_bytes 3 None].
Proof. vm_compute. done. Qed.

(** Six bytes are in the file and three more would pass the threshold of
    eight: the file is rotated and the three bytes start the new file. *)
Example rotating_write :
  (Write open_writer three_bytes open_world).1 =
    ((3, None), mkLogrotate "logs/app.log" 8 (Some 0%nat) 3) /\
  trace (Write open_writer three_bytes open_world).2 =
    [EvClose 0 None;
     EvRename "logs/app.log" "logs/app.log.2024.03.09_07:05:59" None;
     EvStat "logs" None; EvOpen "logs/app.log" (inl 0%nat);
     EvWrite 0 three_bytes 3 None] /\
  names (Write open_writer three_bytes open_world).2
    !! "logs/app.log.2024.03.09_07:05:59" = Some 0%nat /\
  names (Write open_writer three_bytes open_world).2
    !! "logs/app.log" = Some 1%nat /\
  inodes (Write open_writer three_bytes open_world).2 !! 0%nat =
    Some six_bytes /\
  inodes (Write open_writer three_bytes open_world).2 !! 1%nat =
    Some three_bytes.
Proof. vm_compute. done. Qed.

(** A write cut short after two bytes: the error and the two bytes are
    returned and the counter advances by two. *)
Example short_write :
  (Write fresh_writer three_bytes
     (mkWorld (dirs fresh_world) (names fresh_world) (inodes fresh_world)
        (fds fresh_world) sample_time [Some (mkFault ENOSPC 2)] [])).1 =
    ((2, Some (PathError "write" "logs/app.log" ENOSPC)),
     mkLogrotate "logs/app.log" 3 (Some 0%nat) 2).
Proof. vm_compute. done. Qed.

(** A writer made for the empty path cannot open its file. *)
Example empty_path :
  (Write (mkLogrotate "" 8 None 0) three_bytes empty_world).1 =
    ((0, Some (PathError "open" "" ENOENT)), mkLogrotate "" 8 None 0) /\
  trace (Write (mkLogrotate "" 8 None 0) three_bytes empty_world).2 =
    [EvStat "." None; EvOpen "" (inr (PathError "open" "" ENOENT))].
Proof. vm_compute. done. Qed.

(** Nor can one whose path ends in a slash. *)
Example directory_path :
  trace (Write (mkLogrotate "logs/" 8 None 0) three_bytes empty_world).2 =
    [EvStat "logs" None;
     EvOpen "logs/" (inr (PathError "open" "logs/" EISDIR))].
Proof. vm_compute. done. Qed.

(** With the log directory missing, the creation makes it first. *)
Example write_makes_directory :
  trace (Write idle_writer three_bytes
           (mkWorld {["."]} ∅ ∅ ∅ sample_time [] [])).2 =
    [EvStat "logs" (Some (PathError "stat" "logs" ENOENT));
     EvMkdir "logs" None; EvOpen "logs/app.log" (inl 0%nat);
     EvWrite 0 three_bytes 3 None].
Proof. vm_compute. done. Qed.

(** A rename that fails leaves the writer without a handle and the file
    under its name. *)
Example rename_failure :
  (Write open_writer three_bytes
     (open_world_with [None; Some (mkFault EACCES 0)])).1 =
    ((0, Some (LinkError "rename" "logs/app.log"
                 "logs/app.log.2024.03.09_07:05:59" EACCES)),
     mkLogrotate "logs/app.log" 8 None 6) /\
  names (Write open_writer three_bytes
           (open_world_with [None; Some (mkFault EACCES 0)])).2
    !! "logs/app.log" = Some 0%nat.
Proof. vm_compute. done. Qed.

(** ** The properties of the writer *)

(** C1, as the code has it: with a file open and a payload that fits the
    threshold (an [int64]) on its own, a write that would take the size past
    the threshold (the sum being the one the code computes, in [int64]; see
    [rotation_test_exact]) makes [Write] rotate exactly once, and before
    anything is written: the trace gains one close and at most one rename.
    The rotation fails only where its close, its rename or its re-creation
    of the file fails; [Write] then returns that error with nothing written.
    Otherwise the calls are, in order: close of the old handle, rename of the
    path to the path followed by a dot and the local time as
    YYYY.MM.DD_HH:MM:SS (each field zero-padded to its width, a longer year
    in full), the calls of the file creation, and one write of the payload
    to the new handle; the old file bears the backup name, the
    counter was 0 before the write and is the number of bytes written after
    it, which for a write without error is the length of the payload.  And
    unless the backup name was a name of the log file already (a hard link),
    the old file keeps its contents and the path names a new file, empty
    when the write is issued, that afterwards holds just the bytes of this
    write. *)
Theorem C1_rotation_before_write l p w fd :
  file l = Some fd ->
  len p <= MaxSize l ->
  MaxSize l <= Int64.max_int ->
  Int64.add (len p) (size l) > MaxSize l ->
  let path := Filename l in
  let t := now w in
  let backup :=
    path +:+ "." +:+ zero_pad 4 (year t) +:+ "." +:+ zero_pad 2 (month t) +:+
    "." +:+ zero_pad 2 (day t) +:+ "_" +:+ zero_pad 2 (hour t) +:+ ":" +:+
    zero_pad 2 (minute t) +:+ ":" +:+ zero_pad 2 (second t) in
  let d := filepath_Dir path in
  exists n err l' w' evs,
    Write l p w = ((n, err), l', w') /\
    trace w' = trace w ++ evs /\
    length (List.filter is_close_event evs) = 1%nat /\
    (length (List.filter is_rename_event evs) <= 1)%nat /\
    ((exists e,
        rotateFile l w = (Some e, l', w') /\
        (File_Close fd w = (Some e, w') \/
         exists w1,
           File_Close fd w = (None, w1) /\
           (os_Rename path backup w1 = (Some e, w') \/
            exists w2,
              os_Rename path backup w1 = (None, w2) /\
              createFile (set_file None l) w2 =
                (Some e, set_file None l, w'))) /\
        failed_rotation_events fd path backup d e evs /\
        n = 0 /\ err = Some e /\ l' = set_file None l)
     \/
     (exists r fd' i w0,
        evs = [EvClose fd None; EvRename path backup None] ++
              create_events d path r fd' ++ [EvWrite fd' p n err] /\
        rotateFile l w = (None, set_size 0 (set_file (Some fd') l), w0) /\
        File_Write (Some fd') p w0 = ((n, err), w') /\
        l' = set_size n (set_file (Some fd') l) /\
        (err = None -> n = len p /\ size l' = len p) /\
        names w !! path = Some i /\
        names w' !! backup = Some i /\
        (names w !! backup <> Some i ->
         (forall c, inodes w !! i = Some c -> inodes w' !! i = Some c) /\
         exists i',
           names w0 !! path = Some i' /\
           inodes w0 !! i' = Some [] /\
           names w' !! path = Some i' /\
           inodes w' !! i' = Some (take (Z.to_nat n) p) /\
           fds w' !! fd' = Some (mkOpen path i' n)))).
Proof.
  intros Hfile Hlen Hmax Htrig path t backup d.
  rewrite (Write_rotating _ _ _ _ Hfile Hlen Htrig).
  destruct (rotateFile l w) as [[er l2] w2] eqn:Hrot.
  pose proof Hrot as Hrot0.
  apply (rotateFile_spec _ _ _ _ _ _ Hfile) in Hrot as [Hnow Hrot].
  change (backupName l w) with backup in Hrot. fold path d in Hrot.
  destruct er as [e|].
  - destruct Hrot as (-> & Hi & Hf & evs & Ht & Hev).
    destruct (failed_rotation_counts _ _ _ _ _ _ Hev) as (Hc & Hr & _).
    exists 0, (Some e), (set_file None l), w2, evs.
    split_and!; try done. left. exists e. split_and!; try done.
    apply (rotateFile_failed_step _ _ _ _ _ _ Hfile Hrot0).
  - destruct Hrot as (r & fd' & w1 & Ht & -> & Haway & Hop). simpl.
    destruct (File_Write (Some fd') p w2) as [[n err] w3] eqn:Hwr.
    pose proof Hwr as Hwr0.
    apply File_Write_spec in Hwr
      as (Ht3 & Hd3 & Hn3 & Hc3 & Hn & Hshort & Hwr).
    destruct Haway as (i & Hold & Hn1 & Hi1 & Hf1).
    destruct Hop as (i' & Hnew & Hfree & Hf2 & Hop).
    assert (Hne : backup <> path) by apply backupName_ne.
    destruct Hwr as [(o & Ho & Hf3 & Hi3)|(Hbad & _)];
      [|by rewrite Hf2, lookup_insert_eq in Hbad].
    rewrite Hf2, lookup_insert_eq in Ho. simplify_eq. simpl in *.
    assert (Hsz : Int64.add 0 n = n).
    { apply add_exact. unfold Int64.in_range, Int64.min_int. lia. }
    destruct (create_events_counts d path r fd') as [Hcc Hcr].
    assert (Hbk : names w3 !! backup = Some i).
    { rewrite Hn3.
      destruct Hn1 as [(Hlink & Hn1)|(Hnl & Hn1)];
        destruct Hop as [(_ & Hn2 & _)|(_ & _ & Hn2 & _)];
        rewrite Hn2, ?lookup_insert_ne, Hn1, ?lookup_insert_eq; done. }
    exists n, err, (set_size n (set_file (Some fd') l)), w3,
      ([EvClose fd None; EvRename path backup None] ++
       create_events d path r fd' ++ [EvWrite fd' p n err]).
    split_and!.
    + unfold set_size, set_file. simpl. by rewrite Hsz.
    + rewrite Hn3 in Hbk. rewrite Ht3, Ht, <- !app_assoc. done.
    + rewrite !List.filter_app, Hcc. done.
    + rewrite !List.filter_app, Hcr. done.
    + right. exists r, fd', i, w2. split_and!; try done.
      * intros ->. destruct (decide (n < len p)) as [Hlt|Hge].
        -- by destruct (Hshort Hlt).
        -- split; simpl; lia.
      * intros Hnl.
        destruct Hn1 as [(Hlink & _)|(_ & Hn1)]; [done|].
        assert (Hgone : names w1 !! path = None).
        { rewrite Hn1, lookup_insert_ne, lookup_delete_eq; done. }
        destruct Hop as [(Hbad & _)|(_ & Hfresh & Hn2 & Hi2)]; [congruence|].
        split.
        -- intros c Hc.
           rewrite Hi3, lookup_insert_ne, Hi2, lookup_insert_ne;
             rewrite ?Hi1; congruence.
        -- exists i'. split_and!; try done.
           ++ rewrite Hi2, lookup_insert_eq. done.
           ++ by rewrite Hn3.
           ++ rewrite Hi3, lookup_insert_eq, Hi2, lookup_insert_eq. done.
           ++ rewrite Hf3, lookup_insert_eq. done.
Qed.

Lemma C1_witness :
  exists n err l' w' evs,
    Write open_writer three_bytes open_world = ((n, err), l', w') /\
    trace w' = trace open_world ++ evs /\
    length (List.filter is_close_event evs) = 1%nat.
Proof.
  destruct (C1_rotation_before_write open_writer three_bytes open_world 0)
    as (n & err & l' & w' & evs & H1 & H2 & H3 & _).
  - reflexivity.
  - vm_compute. discriminate.
  - vm_compute. discriminate.
  - vm_compute. reflexivity.
  - exists n, err, l', w', evs. split_and!; assumption.
Defined.

(** C1 as stated fails where the backup name is already a name of the log
    file (a hard link to it): the rename then succeeds without doing
    anything, so that the file opened at the path is not a fresh one but the
    old file, which receives the payload after the six bytes it held; both
    names still name that one file, and no file has been created. *)
Lemma C1_counterexample :
  file open_writer = Some 0%nat /\
  len three_bytes <= MaxSize open_writer /\
  size open_writer + len three_bytes > MaxSize open_writer /\
  (Write open_writer three_bytes linked_world).1 =
    ((3, None), mkLogrotate "logs/app.log" 8 (Some 0%nat) 3) /\
  trace (Write open_writer three_bytes linked_world).2 =
    [EvClose 0 None;
     EvRename "logs/app.log" "logs/app.log.2024.03.09_07:05:59" None;
     EvStat "logs" None; EvOpen "logs/app.log" (inl 0%nat);
     EvWrite 0 three_bytes 3 None] /\
  names (Write open_writer three_bytes linked_world).2 =
    names linked_world /\
  names linked_world !! "logs/app.log" = Some 0%nat /\
  inodes (Write open_writer three_bytes linked_world).2 =
    {[0%nat := six_bytes ++ three_bytes]}.
Proof. vm_compute. split_and!; done. Qed.

(** C2: a payload longer than the threshold is rejected whatever the state
    of the writer: [Write] returns 0 and an error, and both the writer (its
    handle and its size counter included) and the world (its files, open
    handles and trace of system calls) are exactly as before. *)
Theorem C2_oversized_rejected l p w :
  len p > MaxSize l ->
  Write l p w = ((0, Some ErrTooLong), l, w).
Proof. apply Write_rejected. Qed.

Lemma C2_witness :
  Write open_writer nine_bytes open_world =
    ((0, Some ErrTooLong), open_writer, open_world) /\
  Write idle_writer nine_bytes empty_world =
    ((0, Some ErrTooLong), idle_writer, empty_world).
Proof.
  split; apply C2_oversized_rejected; vm_compute; reflexivity.
Defined.

(** C3, as the code has it: for a writer made with a request below 2^42
    megabytes (a threshold below 2^62 bytes, so that no sum of a size and a
    payload length overflows), in every state reachable by [Write] and
    [Close] calls the counter is not negative, it equals the number of bytes
    written through the open handle since that handle was opened, and it
    does not exceed the threshold by more than the last accepted write; in
    fact it never exceeds the threshold. *)
Theorem C3_size_invariant filename req last l w :
  req < 2 ^ 42 ->
  reachable filename req last l w ->
  0 <= size l /\
  (forall fd, file l = Some fd ->
              exists o, fds w !! fd = Some o /\ of_written o = size l) /\
  size l <= MaxSize l + last /\
  size l <= MaxSize l.
Proof.
  intros Hreq Hreach.
  destruct (reachable_invariant _ _ _ _ _ Hreq Hreach) as (_ & Hs & Hl & Htr).
  split_and!; try lia. exact Htr.
Qed.

Lemma C3_witness :
  0 <= size (Write (NewLogrotate "logs/app.log" 1) three_bytes empty_world).1.2
  /\
  size (Write (NewLogrotate "logs/app.log" 1) three_bytes empty_world).1.2
    <= MaxSize
         (Write (NewLogrotate "logs/app.log" 1) three_bytes empty_world).1.2.
Proof.
  destruct (C3_size_invariant "logs/app.log" 1 _ _ _ eq_refl
              (reach_Write _ _ _ _ _ three_bytes
                 (reach_new "logs/app.log" 1 empty_world)))
    as (H1 & _ & _ & H2).
  split; assumption.
Defined.

(** C3 as stated fails for the writer made from a request of 2^43
    megabytes: its threshold is the least [int64], so already in its first
    state, with no write accepted yet, the counter (0) exceeds the
    threshold. *)
Lemma C3_counterexample :
  reachable "logs/app.log" (2 ^ 43) 0
    (NewLogrotate "logs/app.log" (2 ^ 43)) empty_world /\
  ~ size (NewLogrotate "logs/app.log" (2 ^ 43)) <=
      MaxSize (NewLogrotate "logs/app.log" (2 ^ 43)) + 0.
Proof.
  split; [apply reach_new|]. vm_compute. intros H. by apply H.
Qed.

(** C4: for a payload that passes the size check, [Write] issues at most
    one write system call, and it is its last call.  Either no write is
    issued, the count is 0 and the error returned is that of the failed
    creation of the file (the writer had none) or of the failed rotation
    (the payload would take the file past the threshold), the last call
    made being the one that failed with it; or the one write carries the
    whole payload to one handle: the handle that was open, when no rotation
    was needed, or the handle just opened by the creation or the rotation.
    The bytes that get written are appended to the single file behind that
    handle and no other file's contents change in that step.  The counter
    becomes its value when the write was issued (0 for a file just opened)
    plus the number of bytes written, in [int64]; a write of fewer bytes
    than the payload comes with an error and the same accounting. *)
Theorem C4_single_write l p w :
  len p <= MaxSize l ->
  exists n err l' w' evs,
    Write l p w = ((n, err), l', w') /\
    trace w' = trace w ++ evs /\
    ((List.filter is_write_event evs = [] /\ n = 0 /\
      exists e,
        err = Some e /\
        ((file l = None /\ createFile l w = (Some e, l', w') /\
          failed_create_events (filepath_Dir (Filename l)) (Filename l) e
            evs) \/
         (exists fd,
            file l = Some fd /\
            Int64.add (len p) (size l) > MaxSize l /\
            rotateFile l w = (Some e, l', w') /\
            failed_rotation_events fd (Filename l) (backupName l w)
              (filepath_Dir (Filename l)) e evs)))
     \/
     (exists pre fd s0 w0,
        evs = pre ++ [EvWrite fd p n err] /\
        List.filter is_write_event pre = [] /\
        trace w0 = trace w ++ pre /\
        ((pre = [] /\ file l = Some fd /\ s0 = size l /\ w0 = w)
         \/ ((exists pre', pre = pre' ++ [EvOpen (Filename l) (inl fd)]) /\
             s0 = 0)) /\
        file l' = Some fd /\
        0 <= n <= len p /\
        (n < len p -> is_Some err) /\
        size l' = Int64.add s0 n /\
        (Int64.in_range (s0 + n) -> size l' = s0 + n) /\
        names w' = names w0 /\
        (appended fd p n w0 w'
         \/ (n = 0 /\ is_Some err /\ inodes w' = inodes w0)))).
Proof.
  intros Hlen. rewrite Write_before_write by done.
  destruct (before_write l p w) as [[eb l2] w2] eqn:Hb.
  pose proof Hb as Hb0.
  apply before_write_spec in Hb as (pre & Ht & Hnw & Hb); [|done].
  destruct eb as [e|].
  { exists 0, (Some e), l2, w2, pre. split_and!; try done.
    left. split_and!; try done. exists e. split; [done|].
    destruct (before_write_failed _ p _ _ _ _ Hlen Hb0)
      as [(Hnone & Hcr)|(fd & Hfd & Htrig & Hrot)].
    - left. destruct Hb as [(_ & _ & _ & Hev)|(fd0 & Hbad & _)];
        [done|congruence].
    - right. exists fd.
      destruct Hb as [(_ & Hbad & _)|(fd0 & Hfd0 & _ & _ & Hev)];
        [congruence|].
      assert (fd0 = fd) as -> by congruence. done. }
  assert (exists fd s0,
    file l2 = Some fd /\ size l2 = s0 /\
    ((pre = [] /\ file l = Some fd /\ s0 = size l /\ w2 = w) \/
     ((exists pre', pre = pre' ++ [EvOpen (Filename l) (inl fd)]) /\ s0 = 0)))
    as (fd & s0 & Hfd & Hs0 & Hcase).
  { destruct Hb as [(fd & Hf & -> & -> & -> & _)
                   |[(r & fd & Hf & -> & -> & _)
                    |(r & fd0 & fd & w1 & Hf & -> & _ & -> & _)]].
    - exists fd, (size l). split_and!; try done. left. done.
    - exists fd, 0. split_and!; try done. right. split; [|done].
      apply create_events_last.
    - exists fd, 0. split_and!; try done. right. split; [|done].
      destruct (create_events_last (filepath_Dir (Filename l)) (Filename l)
                  r fd) as [pre' ->].
      eexists. rewrite app_assoc. done. }
  rewrite Hfd.
  destruct (File_Write (Some fd) p w2) as [[n err] w3] eqn:Hwr.
  apply File_Write_spec in Hwr as (Ht3 & _ & Hn3 & _ & Hn & Hshort & Hwr).
  exists n, err, (set_size (Int64.add (size l2) n) l2), w3,
    (pre ++ [EvWrite fd p n err]).
  split_and!; [done|by rewrite Ht3, Ht, app_assoc|].
  right. exists pre, fd, s0, w2. subst s0.
  do 8 (split; [done|]).
  split; [apply add_exact|]. split; [done|].
  destruct Hwr as [Happ|(_ & ? & ? & ? & _)]; [by left|by right].
Qed.

Lemma C4_witness :
  exists n err l' w' evs,
    Write open_writer three_bytes open_world = ((n, err), l', w') /\
    trace w' = trace open_world ++ evs.
Proof.
  destruct (C4_single_write open_writer three_bytes open_world)
    as (n & err & l' & w' & evs & H1 & H2 & _).
  - vm_compute. discriminate.
  - exists n, err, l', w', evs. split; assumption.
Defined.

(** C5, as the code has it: for a requested number of megabytes below
    2^43, so that the product fits an [int64], the writer's threshold is
    max(requested, 1) * 1048576 bytes, which is at least 1 MiB; the writer
    starts without a file and with a size of 0.  ([NewLogrotate] is a total
    function of the path and the number only: it neither reads nor changes
    the world.) *)
Theorem C5_threshold_clamped filename req :
  req < 2 ^ 43 ->
  NewLogrotate filename req =
    mkLogrotate filename (Z.max req 1 * 1048576) None 0 /\
  1048576 <= MaxSize (NewLogrotate filename req).
Proof. apply NewLogrotate_small. Qed.

Lemma C5_witness :
  NewLogrotate "logs/app.log" (-3) =
    mkLogrotate "logs/app.log" 1048576 None 0 /\
  NewLogrotate "logs/app.log" 10 =
    mkLogrotate "logs/app.log" 10485760 None 0.
Proof.
  split.
  - apply (C5_threshold_clamped "logs/app.log" (-3)). reflexivity.
  - apply (C5_threshold_clamped "logs/app.log" 10). reflexivity.
Defined.

(** C5 as stated fails: a request of 2^43 megabytes makes the product
    2^63, which wraps to the least [int64]; the threshold is then neither
    max(requested, 1) * 1048576 nor at least 1 MiB. *)
Lemma C5_counterexample :
  MaxSize (NewLogrotate "logs/app.log" (2 ^ 43)) = - 2 ^ 63 /\
  MaxSize (NewLogrotate "logs/app.log" (2 ^ 43)) <>
    Z.max (2 ^ 43) 1 * 1048576 /\
  ~ 1048576 <= MaxSize (NewLogrotate "logs/app.log" (2 ^ 43)).
Proof. vm_compute. split_and!; [reflexivity|discriminate|]. intros H. by apply H. Qed.

(** C6: closing a writer that has no file open returns no error and
    changes neither the writer nor the world; after any [Close], failed or
    not, the writer has no file; so a second [Close] in a row returns no
    error and changes nothing. *)
Theorem C6_close_idempotent l w :
  Close (set_file None l) w = (None, set_file None l, w) /\
  file (Close l w).1.2 = None /\
  Close (Close l w).1.2 (Close l w).2 =
    (None, (Close l w).1.2, (Close l w).2).
Proof.
  unfold Close. split_and!.
  - by apply closeFile_closed.
  - apply closeFile_file.
  - apply closeFile_closed, closeFile_file.
Qed.

(** C7: when the close at the start of a rotation fails, the rotation
    and the [Write] that asked for it return that error, with 0 bytes
    written; the only system call made is the close, so nothing was renamed
    and no file was created or opened; the writer is left without a handle,
    the old handle is released, and the file system is as it was, the file
    still under its name. *)
Theorem C7_close_failure_aborts l p w fd e w1 :
  file l = Some fd ->
  len p <= MaxSize l ->
  Int64.add (len p) (size l) > MaxSize l ->
  File_Close fd w = (Some e, w1) ->
  rotateFile l w = (Some e, set_file None l, w1) /\
  Write l p w = ((0, Some e), set_file None l, w1) /\
  file (set_file None l) = None /\
  trace w1 = trace w ++ [EvClose fd (Some e)] /\
  same_files w w1 /\
  fds w1 = delete fd (fds w).
Proof.
  intros Hfile Hlen Htrig Hcl.
  assert (Hrot : rotateFile l w = (Some e, set_file None l, w1)).
  { unfold rotateFile. rewrite (closeFile_open _ _ _ Hfile), Hcl. done. }
  apply File_Close_spec in Hcl as (Ht & Hs & Hf & _).
  split_and!; try done.
  rewrite (Write_rotating _ _ _ _ Hfile Hlen Htrig), Hrot. done.
Qed.

Lemma C7_witness :
  Write open_writer three_bytes (open_world_with close_fault) =
    ((0, Some (PathError "close" "logs/app.log" EIO)),
     set_file None open_writer,
     snd (File_Close 0 (open_world_with close_fault))) /\
  names (snd (File_Close 0 (open_world_with close_fault))) =
    names (open_world_with close_fault).
Proof.
  destruct (C7_close_failure_aborts open_writer three_bytes
              (open_world_with close_fault) 0
              (PathError "close" "logs/app.log" EIO)
              (snd (File_Close 0 (open_world_with close_fault))))
    as (_ & HW & _ & _ & (_ & Hn & _) & _).
  - reflexivity.
  - vm_compute. discriminate.
  - vm_compute. reflexivity.
  - reflexivity.
  - split; assumption.
Defined.

(** C9: both comparisons are strict.  A payload whose length is exactly
    the threshold is not rejected as too long.  A write for which the size
    plus the payload's length is exactly the threshold makes no rotation:
    none of the calls it issues is a close or a rename.  In particular, with
    a file open and nothing written to it yet, a payload of exactly the
    threshold's length goes straight to the write: that write is the only
    call, its result is the result of [Write], and the counter becomes the
    number of bytes written. *)
Theorem C9_strict_comparisons l p w :
  (len p = MaxSize l -> (Write l p w).1.1.2 <> Some ErrTooLong) /\
  (size l + len p = MaxSize l ->
   exists evs, trace (Write l p w).2 = trace w ++ evs /\
               List.filter is_rotation_event evs = []) /\
  (forall fd,
     file l = Some fd -> size l = 0 -> len p = MaxSize l ->
     MaxSize l <= Int64.max_int ->
     exists n err w',
       File_Write (Some fd) p w = ((n, err), w') /\
       Write l p w = ((n, err), set_size n l, w') /\
       trace w' = trace w ++ [EvWrite fd p n err]).
Proof.
  split_and!.
  - intros H. apply Write_accepted_error. lia.
  - intros Hsum.
    destruct (Z.gtb_spec (len p) (MaxSize l)) as [Hgt|Hle].
    { rewrite Write_rejected by lia. exists []. by rewrite app_nil_r. }
    rewrite Write_before_write by done.
    destruct (before_write l p w) as [[eb l2] w2] eqn:Hb.
    apply before_write_spec in Hb as (pre & Ht & Hnw & Hb); [|done].
    assert (Hno : Int64.add (len p) (size l) <= MaxSize l).
    { unfold Int64.add. pose proof (len_nonneg p).
      pose proof (wrap_le (len p + size l)) as Hw.
      unfold Int64.min_int in Hw. lia. }
    assert (Hpre : List.filter is_rotation_event pre = []).
    { destruct eb as [e|].
      - destruct Hb as [(_ & _ & _ & Hev)|(fd0 & _ & _ & Hgt & _)]; [|lia].
        by destruct (failed_create_no_rotation _ _ _ _ Hev).
      - destruct Hb as [(fd & _ & _ & _ & -> & _)
                       |[(r & fd & _ & _ & -> & _)
                        |(r & fd0 & fd & w1 & _ & _ & Hgt & _)]];
          [done| |lia].
        apply create_events_no_rotation. }
    destruct eb as [e|]; simpl.
    { exists pre. done. }
    destruct (file l2) as [fd|].
    + destruct (File_Write (Some fd) p w2) as [[n err] w3] eqn:Hwr.
      apply File_Write_spec in Hwr as (Ht3 & _). simpl.
      exists (pre ++ [EvWrite fd p n err]).
      rewrite Ht3, Ht, app_assoc, List.filter_app, Hpre. done.
    + exists pre. done.
  - intros fd Hfile Hsz Hlen Hmax.
    rewrite Write_before_write by lia.
    unfold before_write. rewrite Hfile, Hsz.
    rewrite no_rotation_at_zero by lia. rewrite Hfile.
    destruct (File_Write (Some fd) p w) as [[n err] w'] eqn:Hwr.
    exists n, err, w'. split; [done|].
    apply File_Write_spec in Hwr as (Ht & _ & _ & _ & Hn & _).
    split; [|done]. rewrite Hsz, add_exact; [done|].
    unfold Int64.in_range, Int64.min_int. lia.
Qed.

Lemma C9_witness :
  (Write fresh_writer three_bytes fresh_world).1.1.2 <> Some ErrTooLong /\
  (exists evs,
     trace (Write fresh_writer three_bytes fresh_world).2 =
       trace fresh_world ++ evs /\
     List.filter is_rotation_event evs = []) /\
  (exists n err w',
     File_Write (Some 0%nat) three_bytes fresh_world = ((n, err), w') /\
     Write fresh_writer three_bytes fresh_world =
       ((n, err), set_size n fresh_writer, w') /\
     trace w' = trace fresh_world ++ [EvWrite 0 three_bytes n err]).
Proof.
  destruct (C9_strict_comparisons fresh_writer three_bytes fresh_world)
    as (H1 & H2 & H3).
  split_and!.
  - apply H1. reflexivity.
  - apply H2. reflexivity.
  - apply (H3 0%nat); [reflexivity..|]. vm_compute. discriminate.
Defined.

(** C10, as the code has it: on a writer without an open file whose
    threshold is not negative, a [Write] of the empty payload runs the file
    creation: its first call checks the parent directory, which is created
    when the check says it is missing, and the file is opened.  If the
    creation fails, its error is returned and the writer is unchanged.
    Otherwise the writer holds the new handle with a counter of 0, the empty
    payload is written to it, and [Write] returns 0 and the result of that
    write, so no error when the write succeeds.  No call is a close or a
    rename: the empty write does not rotate. *)
Theorem C10_empty_write_creates l w :
  file l = None ->
  0 <= MaxSize l ->
  let path := Filename l in
  let d := filepath_Dir path in
  exists err l' w' evs,
    Write l [] w = ((0, err), l', w') /\
    trace w' = trace w ++ evs /\
    List.filter is_rotation_event evs = [] /\
    (exists r rest, evs = EvStat d r :: rest) /\
    ((exists e, err = Some e /\ l' = l /\ failed_create_events d path e evs)
     \/
     (exists r fd w0,
        evs = create_events d path r fd ++ [EvWrite fd [] 0 err] /\
        l' = set_size 0 (set_file (Some fd) l) /\
        opened path fd w w0 /\
        File_Write (Some fd) [] w0 = ((0, err), w'))).
Proof.
  intros Hfile Hmax path d.
  rewrite Write_before_write by done.
  destruct (before_write l [] w) as [[eb l2] w2] eqn:Hb.
  apply before_write_spec in Hb as (pre & Ht & Hnw & Hb); [|done].
  fold path d in Hb.
  destruct eb as [e|].
  - destruct Hb as [(-> & _ & _ & Hev)|(fd0 & Hbad & _)]; [|congruence].
    exists (Some e), l, w2, pre. split_and!; try done.
    + by destruct (failed_create_no_rotation _ _ _ _ Hev).
    + destruct Hev; eauto.
    + left. by exists e.
  - destruct Hb as [(fd & Hbad & _)
                   |[(r & fd & _ & -> & -> & Hop)
                    |(r & fd0 & fd & w1 & Hbad & _)]]; [congruence| |congruence].
    simpl.
    destruct (File_Write (Some fd) [] w2) as [[n err] w3] eqn:Hwr.
    pose proof Hwr as Hwr'.
    apply File_Write_spec in Hwr' as (Ht3 & _ & _ & _ & Hn & _).
    assert (n = 0) as -> by (unfold len in Hn; simpl in Hn; lia).
    exists err, (set_size 0 (set_file (Some fd) l)), w3,
      (create_events d path r fd ++ [EvWrite fd [] 0 err]).
    split_and!; try done.
    + by rewrite Ht3, Ht, app_assoc.
    + rewrite List.filter_app.
      by destruct (create_events_no_rotation d path r fd) as [-> _].
    + unfold create_events. eauto.
    + right. exists r, fd, w2. done.
Qed.

Lemma C10_witness :
  exists err l' w' evs,
    Write idle_writer [] empty_world = ((0, err), l', w') /\
    trace w' = trace empty_world ++ evs /\
    List.filter is_rotation_event evs = [].
Proof.
  destruct (C10_empty_write_creates idle_writer empty_world)
    as (err & l' & w' & evs & H1 & H2 & H3 & _).
  - reflexivity.
  - vm_compute. discriminate.
  - exists err, l', w', evs. split_and!; assumption.
Defined.

(** C10 as stated fails where the threshold is negative, as it is for the
    writer made from a request of 2^43 megabytes: the empty payload is then
    longer than the threshold and is rejected before any file is created. *)
Lemma C10_counterexample :
  file (NewLogrotate "logs/app.log" (2 ^ 43)) = None /\
  Write (NewLogrotate "logs/app.log" (2 ^ 43)) [] empty_world =
    ((0, Some ErrTooLong), NewLogrotate "logs/app.log" (2 ^ 43),
     empty_world) /\
  trace empty_world = [].
Proof. vm_compute. done. Qed.

(** ** System calls in a world without faults *)

Lemma name_error_None name :
  name_error name = None ->
  path_error name = None /\ ends_in_slash name = false /\
  ends_in_dots name = false.
Proof.
  unfold name_error. destruct (path_error name); [done|].
  destruct (ends_in_slash name), (ends_in_dots name); done.
Qed.

Lemma os_Stat_ok name w :
  faults w = [] -> name ∈ dirs w ->
  os_Stat name w = (None, log (EvStat name None) w).
Proof.
  intros Hf Hd. unfold os_Stat, syscall, next_fault, stat_effect, exists_path.
  rewrite Hf. by rewrite bool_decide_eq_true_2.
Qed.

Lemma os_OpenFile_ok_existing name w i :
  faults w = [] -> name ∉ dirs w -> names w !! name = Some i ->
  os_OpenFile name w =
    (inl (fresh_key (fds w)),
     log (EvOpen name (inl (fresh_key (fds w))))
       (set_fds (<[fresh_key (fds w) := mkOpen name i 0]> (fds w)) w)).
Proof.
  intros Hf Hd Hn. unfold os_OpenFile, syscall, next_fault, open_effect.
  rewrite Hf. rewrite bool_decide_eq_false_2 by done. by rewrite Hn.
Qed.

Lemma os_OpenFile_ok_new name w :
  faults w = [] -> name ∉ dirs w -> names w !! name = None ->
  name_error name = None ->
  filepath_Dir name ∈ dirs w ->
  os_OpenFile name w =
    (inl (fresh_key (fds w)),
     log (EvOpen name (inl (fresh_key (fds w))))
       (set_fds
          (<[fresh_key (fds w) := mkOpen name (fresh_key (inodes w)) 0]>
             (fds w))
          (set_names (<[name := fresh_key (inodes w)]> (names w))
             (set_inodes (<[fresh_key (inodes w) := []]> (inodes w)) w)))).
Proof.
  intros Hf Hd Hn He Hp.
  apply name_error_None in He as (He & Hs & Hdots).
  unfold os_OpenFile, syscall, next_fault, open_effect.
  rewrite Hf. rewrite bool_decide_eq_false_2 by done.
  rewrite Hn, He, Hs, Hdots. by rewrite bool_decide_eq_true_2.
Qed.

Lemma os_Rename_ok old new w i :
  faults w = [] -> names w !! old = Some i -> new ∉ dirs w ->
  names w !! new <> Some i -> name_error new = None ->
  filepath_Dir new ∈ dirs w ->
  os_Rename old new w =
    (None,
     log (EvRename old new None)
       (set_names (<[new := i]> (delete old (names w))) w)).
Proof.
  intros Hf Hn Hd Hl He Hp.
  apply name_error_None in He as (He & Hs & Hdots).
  unfold os_Rename, syscall, next_fault, rename_effect.
  rewrite Hf, Hn. rewrite !bool_decide_eq_false_2 by done.
  rewrite He, Hs, Hdots. by rewrite bool_decide_eq_true_2.
Qed.

Lemma File_Close_ok fd w o :
  faults w = [] -> fds w !! fd = Some o ->
  File_Close fd w =
    (None, log (EvClose fd None) (set_fds (delete fd (fds w)) w)).
Proof.
  intros Hf Ho. unfold File_Close, syscall, next_fault, close_effect.
  by rewrite Hf, Ho.
Qed.

Lemma File_Write_ok fd p w o :
  faults w = [] -> fds w !! fd = Some o ->
  File_Write (Some fd) p w =
    ((len p, None),
     log (EvWrite fd p (len p) None)
       (set_fds
          (<[fd := mkOpen (of_name o) (of_inode o) (of_written o + len p)]>
             (fds w))
          (set_inodes
             (<[of_inode o := default [] (inodes w !! of_inode o) ++ p]>
                (inodes w)) w))).
Proof.
  intros Hf Ho. unfold File_Write, syscall, next_fault, write_effect, len.
  rewrite Hf, Ho. simpl. by rewrite firstn_all.
Qed.

(** ** Further properties of the writer *)

Lemma before_write_fields l p w err l2 w2 :
  before_write l p w = (err, l2, w2) ->
  Filename l2 = Filename l /\ MaxSize l2 = MaxSize l.
Proof.
  unfold before_write. intros H.
  assert (Hrot : forall l1 w1 e l3 w3,
            rotateFile l1 w1 = (e, l3, w3) ->
            Filename l3 = Filename l1 /\ MaxSize l3 = MaxSize l1).
  { clear. intros l1 w1 e l3 w3 H. unfold rotateFile, closeFile in H.
    assert (Hcr : forall l0 w0,
              createFile l0 w0 = (e, l3, w3) ->
              Filename l3 = Filename l0 /\ MaxSize l3 = MaxSize l0).
    { intros l0 w0 Hc. apply createFile_spec in Hc as [_ Hc].
      destruct e as [e|].
      - by destruct Hc as (-> & _).
      - by destruct Hc as (r & fd & _ & -> & _). }
    destruct (file l1) as [fd|].
    - destruct (File_Close fd w1) as [[e1|] w4]; [by simplify_eq|].
      destruct (os_Rename _ _ w4) as [[e2|] w5]; [by simplify_eq|].
      by apply Hcr in H.
    - destruct (os_Rename _ _ w1) as [[e2|] w5]; [by simplify_eq|].
      by apply Hcr in H. }
  destruct (file l).
  - destruct (_ >? _); [by eapply Hrot|by simplify_eq].
  - destruct (createFile l w) as [[[e1|] l1] w1] eqn:Hcr.
    + simplify_eq. apply createFile_spec in Hcr as [_ Hcr].
      by destruct Hcr as (-> & _).
    + apply createFile_spec in Hcr as [_ Hcr].
      destruct Hcr as (r & fd & _ & -> & _).
      destruct (_ >? _); [|by simplify_eq].
      by apply Hrot in H.
Qed.

(** The result and final state of [Write] on a payload that passes the size
    check, in terms of the state in which the write is issued. *)
Lemma Write_via_before l p w err l2 w2 :
  len p <= MaxSize l ->
  before_write l p w = (err, l2, w2) ->
  match err with
  | Some e => Write l p w = ((0, Some e), l2, w2)
  | None =>
      Write l p w =
        ((File_Write (file l2) p w2).1,
         set_size (Int64.add (size l2) (File_Write (file l2) p w2).1.1) l2,
         (File_Write (file l2) p w2).2)
  end.
Proof.
  intros Hlen Hb. rewrite Write_before_write by done. rewrite Hb.
  destruct err; [done|].
  by destruct (File_Write (file l2) p w2) as [[n e] w3].
Qed.

(** X1: [Write] answers with the error of the size check exactly when the
    payload is longer than the threshold; every other error it returns comes
    from the operating system. *)
Theorem too_long_error_iff l p w :
  ((Write l p w).1.1.2 = Some ErrTooLong <-> len p > MaxSize l) /\
  (forall e,
     (Write l p w).1.1.2 = Some e ->
     (e = ErrTooLong /\ len p > MaxSize l) \/
     (is_os_error e = true /\ len p <= MaxSize l)).
Proof.
  split; [split|].
  - intros H. destruct (Z.gtb_spec (len p) (MaxSize l)) as [Hgt|Hle]; [lia|].
    by apply Write_accepted_error in H.
  - intros H. by rewrite Write_rejected.
  - intros e. destruct (Z.gtb_spec (len p) (MaxSize l)) as [Hgt|Hle].
    { rewrite Write_rejected by lia. simpl. intros [= <-]. left.
      split; [done|lia]. }
    intros H. right. split; [|done].
    destruct (before_write l p w) as [[eb l2] w2] eqn:Hb.
    pose proof (Write_via_before _ _ _ _ _ _ Hle Hb) as HWr.
    destruct eb as [e0|]; rewrite HWr in H; simpl in H.
    + simplify_eq. by apply before_write_error in Hb.
    + apply before_write_file in Hb as [fd Hfd]; [|done]. rewrite Hfd in H.
      destruct (File_Write (Some fd) p w2) as [[n err] w3] eqn:Hwr.
      simpl in H. subst err. by apply File_Write_os_error in Hwr.
Qed.

(** X2: neither [Write] nor [Close] ever changes the path or the threshold
    of the writer, whatever the outcome of the call. *)
Theorem path_and_threshold_fixed l p w :
  Filename (Write l p w).1.2 = Filename l /\
  MaxSize (Write l p w).1.2 = MaxSize l /\
  Filename (Close l w).1.2 = Filename l /\
  MaxSize (Close l w).1.2 = MaxSize l.
Proof.
  assert (HW : Filename (Write l p w).1.2 = Filename l /\
               MaxSize (Write l p w).1.2 = MaxSize l).
  { destruct (Z.gtb_spec (len p) (MaxSize l)) as [Hgt|Hle].
    { by rewrite Write_rejected by lia. }
    destruct (before_write l p w) as [[eb l2] w2] eqn:Hb.
    pose proof (before_write_fields _ _ _ _ _ _ Hb) as [HF HM].
    pose proof (Write_via_before _ _ _ _ _ _ Hle Hb) as HWr.
    destruct eb; rewrite HWr; done. }
  destruct HW as [HF HM]. split_and!; [done..| |].
  - unfold Close, closeFile. destruct (file l); [|done].
    by destruct (File_Close n w).
  - unfold Close, closeFile. destruct (file l); [|done].
    by destruct (File_Close n w).
Qed.

Lemma File_Write_bounds f p w :
  0 <= (File_Write f p w).1.1 <= len p /\
  ((File_Write f p w).1.1 = len p \/ is_Some (File_Write f p w).1.2).
Proof.
  pose proof (len_nonneg p).
  destruct f as [fd|]; [|simpl; split; [lia|right; by eexists]].
  destruct (File_Write (Some fd) p w) as [[n err] w'] eqn:Hwr.
  apply File_Write_spec in Hwr as (_ & _ & _ & _ & Hn & Hs & _). simpl.
  split; [done|].
  destruct (decide (n < len p)); [right; auto|left; lia].
Qed.

(** X3: [Write] keeps the contract of an [io.Writer] in every state: the
    count it returns is between 0 and the length of the payload, and a count
    short of the payload comes with an error.  The count is 0, with an
    error, on every path that ends before the write; otherwise the count and
    the error are those of the file's own write, the last call made. *)
Theorem Write_io_contract l p w :
  0 <= (Write l p w).1.1.1 <= len p /\
  ((Write l p w).1.1.1 = len p \/ is_Some (Write l p w).1.1.2) /\
  exists evs,
    trace (Write l p w).2 = trace w ++ evs /\
    ((List.filter is_write_event evs = [] /\
      (Write l p w).1.1.1 = 0 /\ is_Some (Write l p w).1.1.2)
     \/
     (exists pre fd w0,
        evs = pre ++ [EvWrite fd p (Write l p w).1.1.1 (Write l p w).1.1.2] /\
        List.filter is_write_event pre = [] /\
        trace w0 = trace w ++ pre /\
        File_Write (Some fd) p w0 = ((Write l p w).1.1, (Write l p w).2))).
Proof.
  pose proof (len_nonneg p).
  destruct (Z.gtb_spec (len p) (MaxSize l)) as [Hgt|Hle].
  { rewrite Write_rejected by lia. simpl. split; [lia|].
    split; [right; by eexists|].
    exists []. rewrite app_nil_r. split; [done|]. left.
    split_and!; [done..|by eexists]. }
  destruct (before_write l p w) as [[eb l2] w2] eqn:Hb.
  pose proof (Write_via_before _ _ _ _ _ _ Hle Hb) as HWr.
  destruct eb as [e|]; rewrite HWr; simpl.
  - split; [lia|]. split; [right; by eexists|].
    apply before_write_spec in Hb as (pre & Ht & Hnw & _); [|done].
    exists pre. split; [done|]. left. split_and!; [done..|by eexists].
  - split; [apply File_Write_bounds|]. split; [apply File_Write_bounds|].
    pose proof (before_write_file _ _ _ _ _ Hle Hb) as [fd Hfd].
    apply before_write_spec in Hb as (pre & Ht & Hnw & _); [|done].
    rewrite Hfd.
    destruct (File_Write (Some fd) p w2) as [[n err] w3] eqn:Hwr.
    pose proof (File_Write_spec _ _ _ _ _ _ Hwr) as (Ht3 & _). simpl.
    exists (pre ++ [EvWrite fd p n err]).
    split; [by rewrite Ht3, Ht, app_assoc|].
    right. exists pre, fd, w2. done.
Qed.

Ltac solve_sublist :=
  repeat first
    [apply sublist_nil_l | apply sublist_skip | apply sublist_cons].

Lemma failed_create_order d path e evs post :
  failed_create_events d path e evs ->
  sublist (map kind_of evs) ([KStat; KMkdir; KOpen] ++ post).
Proof.
  destruct 1; [simpl; solve_sublist|].
  destruct (os_IsNotExist r); simpl; solve_sublist.
Qed.

Lemma create_events_order d path r fd :
  sublist (map kind_of (create_events d path r fd)) [KStat; KMkdir; KOpen].
Proof.
  unfold create_events. destruct (os_IsNotExist r); simpl; solve_sublist.
Qed.

(** X4: the system calls of one [Write] always come in the same order,
    each kind at most once: close, rename, stat, mkdir, open, write.  So a
    [Write] never rotates twice, never opens a file before the old one is
    closed and renamed, never writes to a file it has not opened, and makes
    no call after the write. *)
Theorem Write_call_order l p w :
  exists evs,
    trace (Write l p w).2 = trace w ++ evs /\
    sublist (map kind_of evs) [KClose; KRename; KStat; KMkdir; KOpen; KWrite].
Proof.
  destruct (Z.gtb_spec (len p) (MaxSize l)) as [Hgt|Hle].
  { rewrite Write_rejected by lia. exists []. rewrite app_nil_r.
    split; [done|]. simpl. solve_sublist. }
  destruct (before_write l p w) as [[eb l2] w2] eqn:Hb.
  pose proof (Write_via_before _ _ _ _ _ _ Hle Hb) as HWr.
  apply before_write_spec in Hb as (pre & Ht & _ & Hb); [|done].
  destruct eb as [e|]; rewrite HWr; simpl.
  - exists pre. split; [done|].
    destruct Hb as [(_ & _ & _ & Hev)|(fd0 & _ & _ & _ & Hev)].
    + do 2 apply sublist_cons.
      apply (failed_create_order _ _ _ _ [KWrite] Hev).
    + destruct Hev as [e|e|e evs Hev]; [by (simpl; solve_sublist)..|].
      rewrite map_app. simpl. do 2 apply sublist_skip.
      apply (failed_create_order _ _ _ _ [KWrite] Hev).
  - assert (sublist (map kind_of pre)
              [KClose; KRename; KStat; KMkdir; KOpen]
            /\ exists fd, file l2 = Some fd) as [Hpre [fd Hfd]].
    { destruct Hb as [(fd & Hf & -> & -> & -> & _)
                     |[(r & fd & _ & -> & -> & _)
                      |(r & fd0 & fd & w1 & _ & -> & _ & -> & _)]].
      - split; [simpl; solve_sublist|by exists fd].
      - split; [|by exists fd]. do 2 apply sublist_cons.
        apply create_events_order.
      - split; [|by exists fd]. rewrite map_app. simpl.
        do 2 apply sublist_skip. apply create_events_order. }
    rewrite Hfd.
    destruct (File_Write (Some fd) p w2) as [[n err] w3] eqn:Hwr.
    apply File_Write_spec in Hwr as (Ht3 & _). simpl.
    exists (pre ++ [EvWrite fd p n err]).
    split; [by rewrite Ht3, Ht, app_assoc|].
    rewrite map_app. simpl.
    change [KClose; KRename; KStat; KMkdir; KOpen; KWrite]
      with ([KClose; KRename; KStat; KMkdir; KOpen] ++ [KWrite]).
    by apply sublist_app.
Qed.

(** X5: a [Write] on a writer that holds no file (just constructed, closed,
    or left without a handle by a failed rotation) starts with the check of
    the directory and never rotates, however much the file on disk already
    holds.  If it fails before the write the writer is unchanged.  Otherwise
    the counter starts from 0: it ends as the number of bytes written, and a
    file that was already at the path keeps its contents and gets the bytes
    appended. *)
Theorem first_write_never_rotates l p w :
  file l = None ->
  len p <= MaxSize l ->
  MaxSize l <= Int64.max_int ->
  exists n err l' w' evs,
    Write l p w = ((n, err), l', w') /\
    trace w' = trace w ++ evs /\
    List.filter is_rotation_event evs = [] /\
    (exists r rest, evs = EvStat (filepath_Dir (Filename l)) r :: rest) /\
    ((n = 0 /\ is_Some err /\ l' = l)
     \/
     (exists fd,
        l' = set_size n (set_file (Some fd) l) /\
        forall i c,
          names w !! Filename l = Some i -> inodes w !! i = Some c ->
          names w' !! Filename l = Some i /\
          inodes w' !! i = Some (c ++ take (Z.to_nat n) p))).
Proof.
  intros Hfile Hlen Hmax.
  destruct (before_write l p w) as [[eb l2] w2] eqn:Hb.
  pose proof (Write_via_before _ _ _ _ _ _ Hlen Hb) as HWr.
  apply before_write_spec in Hb as (pre & Ht & _ & Hb); [|done].
  destruct eb as [e|].
  - destruct Hb as [(-> & _ & _ & Hev)|(fd0 & Hbad & _)]; [|congruence].
    exists 0, (Some e), l, w2, pre. split_and!; try done.
    + by destruct (failed_create_no_rotation _ _ _ _ Hev).
    + destruct Hev; eauto.
    + left. split_and!; eauto.
  - destruct Hb as [(fd & Hbad & _)
                   |[(r & fd & _ & -> & -> & Hop)
                    |(r & fd0 & fd & w1 & Hbad & _)]]; [congruence| |congruence].
    simpl in HWr.
    destruct (File_Write (Some fd) p w2) as [[n err] w3] eqn:Hwr.
    apply File_Write_spec in Hwr as (Ht3 & _ & Hn3 & _ & Hn & _ & Hwr).
    simpl in HWr.
    rewrite add_exact in HWr
      by (unfold Int64.in_range, Int64.min_int; lia).
    eexists n, err, _, w3, _. split; [exact HWr|].
    split; [by rewrite Ht3, Ht, <- app_assoc|].
    split.
    { rewrite List.filter_app.
      by destruct (create_events_no_rotation (filepath_Dir (Filename l))
                     (Filename l) r fd) as [-> _]. }
    split; [unfold create_events; simpl; eauto|].
    right. exists fd. split; [done|].
    intros i c Hi Hc.
    destruct Hop as (i0 & Hnew & Hfree & Hf2 & Hop).
    destruct Hop as [(Hex & Hn2 & Hi2)|(Hbad & _)]; [|congruence].
    assert (i0 = i) as -> by congruence.
    split; [by rewrite Hn3|].
    destruct Hwr as [(o & Ho & _ & Hi3)|(Hbad & _)];
      [|by rewrite Hf2, lookup_insert_eq in Hbad].
    rewrite Hf2, lookup_insert_eq in Ho. simplify_eq. simpl in Hi3.
    rewrite Hi3, lookup_insert_eq, Hi2, Hc. done.
Qed.

(** X6: [createFile] does not return an error of the directory check other
    than not-exist: it creates no directory and goes on to open the file,
    and its result is the result of the open. *)
Theorem stat_error_not_surfaced l w e w1 :
  os_Stat (filepath_Dir (Filename l)) w = (Some e, w1) ->
  os_IsNotExist (Some e) = false ->
  exists r w',
    os_OpenFile (Filename l) w1 = (r, w') /\
    createFile l w =
      (match r with
       | inl fd => (None, set_size 0 (set_file (Some fd) l))
       | inr e' => (Some e', l)
       end, w') /\
    trace w' =
      trace w ++
      [EvStat (filepath_Dir (Filename l)) (Some e); EvOpen (Filename l) r].
Proof.
  intros Hstat Hne.
  destruct (os_OpenFile (Filename l) w1) as [r w'] eqn:Hop.
  exists r, w'. split; [done|]. split.
  - unfold createFile. rewrite Hstat, Hne, Hop. by destruct r.
  - apply os_Stat_spec in Hstat as (Ht1 & _).
    apply os_OpenFile_spec in Hop as (Ht2 & _).
    by rewrite Ht2, Ht1, <- app_assoc.
Qed.

(** X7: a [createFile] that fails leaves the writer as it was, without a
    handle of its making in the world, and with every regular file and its
    contents as before; the error is one of the operating system. *)
Theorem createFile_failure_is_clean l w e l' w' :
  createFile l w = (Some e, l', w') ->
  l' = l /\ names w' = names w /\ inodes w' = inodes w /\
  fds w' = fds w /\ is_os_error e = true.
Proof.
  intros H. pose proof (createFile_error _ _ _ _ _ H) as He.
  apply createFile_spec in H as [_ (-> & Hn & Hi & Hf & _)]. done.
Qed.

(** X8: a [createFile] that succeeds gives the writer a handle that was not
    open before, on the file at the writer's path, with nothing written
    through it and the counter at 0.  It never truncates or unlinks: every
    file keeps its name and its contents; if there was no file at the path,
    the new one is empty. *)
Theorem createFile_opens_for_append l w l' w' :
  createFile l w = (None, l', w') ->
  exists fd i,
    l' = set_size 0 (set_file (Some fd) l) /\
    fds w !! fd = None /\
    fds w' = <[fd := mkOpen (Filename l) i 0]> (fds w) /\
    names w' !! Filename l = Some i /\
    (forall q j, names w !! q = Some j -> names w' !! q = Some j) /\
    (forall j c, inodes w !! j = Some c -> inodes w' !! j = Some c) /\
    (names w !! Filename l = None -> inodes w' !! i = Some []).
Proof.
  intros H. apply createFile_spec in H as [_ (r & fd & _ & -> & Hop)].
  destruct Hop as (i & Hnew & Hfree & Hf & Hop).
  exists fd, i. split_and!; try done.
  - intros q j Hq.
    destruct Hop as [(_ & -> & _)|(Hnone & _ & -> & _)]; [done|].
    rewrite lookup_insert_ne; [done|congruence].
  - intros j c Hj.
    destruct Hop as [(_ & _ & ->)|(_ & Hfresh & _ & ->)]; [done|].
    rewrite lookup_insert_ne; [done|congruence].
  - intros Hnone.
    destruct Hop as [(Hex & _)|(_ & _ & _ & ->)]; [congruence|].
    by rewrite lookup_insert_eq.
Qed.

(** X9: when the rename of a rotation fails after the close succeeded,
    [Write] returns the error of the rename with 0 bytes written and makes no
    further call: no file is created or opened.  The writer is left without
    a handle, the old handle is released, and the file is still under its
    name with its contents. *)
Theorem rename_failure_aborts l p w fd e w1 w2 :
  file l = Some fd ->
  len p <= MaxSize l ->
  Int64.add (len p) (size l) > MaxSize l ->
  File_Close fd w = (None, w1) ->
  os_Rename (Filename l) (backupName l w) w1 = (Some e, w2) ->
  Write l p w = ((0, Some e), set_file None l, w2) /\
  trace w2 =
    trace w ++
    [EvClose fd None; EvRename (Filename l) (backupName l w) (Some e)] /\
  same_files w w2 /\
  fds w2 = delete fd (fds w).
Proof.
  intros Hfile Hlen Htrig Hcl Hrn.
  assert (Hrot : rotateFile l w = (Some e, set_file None l, w2)).
  { unfold rotateFile. rewrite (closeFile_open _ _ _ Hfile), Hcl. simpl.
    apply File_Close_spec in Hcl as (_ & _ & _ & Hnow).
    rewrite (backupName_frame l w) by done.
    change (Filename (set_file None l)) with (Filename l). by rewrite Hrn. }
  rewrite (Write_rotating _ _ _ _ Hfile Hlen Htrig), Hrot.
  apply File_Close_spec in Hcl as (Ht1 & (Hd1 & Hn1 & Hi1) & Hf1 & _).
  apply os_Rename_spec in Hrn as (Ht2 & Hd2 & Hi2 & Hf2 & _ & Hn2).
  split_and!; try done; try congruence.
  - by rewrite Ht2, Ht1, <- app_assoc.
  - unfold same_files. split_and!; congruence.
Qed.

(** X10: when the re-creation of the file fails after the close and the
    rename succeeded, the backup name not having been a name of the log file
    already (a hard link), [Write] returns that error with 0 bytes written
    and the writer is left without a handle; the old file is under the
    backup name, intact, and there is no file at the path. *)
Theorem recreate_failure_keeps_backup l p w fd w1 w2 e l3 w3 :
  file l = Some fd ->
  len p <= MaxSize l ->
  Int64.add (len p) (size l) > MaxSize l ->
  names w !! backupName l w <> names w !! Filename l ->
  File_Close fd w = (None, w1) ->
  os_Rename (Filename l) (backupName l w) w1 = (None, w2) ->
  createFile (set_file None l) w2 = (Some e, l3, w3) ->
  Write l p w = ((0, Some e), set_file None l, w3) /\
  names w3 !! Filename l = None /\
  names w3 !! backupName l w = names w !! Filename l /\
  is_Some (names w !! Filename l) /\
  inodes w3 = inodes w /\
  fds w3 = delete fd (fds w).
Proof.
  intros Hfile Hlen Htrig Hlink Hcl Hrn Hcr.
  pose proof (createFile_spec _ _ _ _ _ Hcr) as [_ (-> & Hn3 & Hi3 & Hf3 & _)].
  assert (Hrot : rotateFile l w = (Some e, set_file None l, w3)).
  { unfold rotateFile. rewrite (closeFile_open _ _ _ Hfile), Hcl. simpl.
    pose proof (File_Close_spec _ _ _ _ Hcl) as (_ & _ & _ & Hnow).
    rewrite (backupName_frame l w) by done.
    change (Filename (set_file None l)) with (Filename l).
    by rewrite Hrn. }
  rewrite (Write_rotating _ _ _ _ Hfile Hlen Htrig), Hrot.
  apply File_Close_spec in Hcl as (_ & (_ & Hn1 & Hi1) & Hf1 & _).
  apply os_Rename_spec in Hrn as (_ & _ & Hi2 & Hf2 & _ & (i & Hold & Hn2)).
  pose proof (backupName_ne l w) as Hne.
  destruct Hn2 as [(Hbad & _)|(_ & Hn2)]; [congruence|].
  split_and!; try congruence.
  - rewrite Hn3, Hn2, lookup_insert_ne, lookup_delete_eq; done.
  - rewrite Hn3, Hn2, lookup_insert_eq. congruence.
  - rewrite <- Hn1. by eexists.
Qed.

(** X11: [Close] makes one system call, the close of the writer's handle,
    when there is one, and none otherwise; the handle is released whatever
    the call returns.  It changes no directory, file name or file contents,
    and leaves the counter as it was. *)
Theorem Close_effect l w :
  size (Close l w).1.2 = size l /\
  same_files w (Close l w).2 /\
  fds (Close l w).2 =
    match file l with
    | Some fd => delete fd (fds w)
    | None => fds w
    end /\
  trace (Close l w).2 =
    trace w ++
    match file l with
    | Some fd => [EvClose fd (Close l w).1.1]
    | None => []
    end.
Proof.
  unfold Close, closeFile. destruct (file l) as [fd|].
  - destruct (File_Close fd w) as [r w'] eqn:Hcl.
    apply File_Close_spec in Hcl as (Ht & Hs & Hf & _). done.
  - simpl. rewrite app_nil_r. done.
Qed.

(** ** Runs without faults *)

Lemma total_len_nonneg ps : 0 <= total_len ps.
Proof.
  induction ps as [|p ps IH]; simpl; [done|].
  pose proof (len_nonneg p). lia.
Qed.

(** A write that fits, through an open handle, in a world without faults. *)
Lemma Write_fits l p w fd o :
  file l = Some fd ->
  fds w !! fd = Some o ->
  faults w = [] ->
  0 <= size l ->
  size l + len p <= MaxSize l ->
  MaxSize l <= Int64.max_int ->
  Write l p w =
    ((len p, None), set_size (size l + len p) l,
     log (EvWrite fd p (len p) None)
       (set_fds
          (<[fd := mkOpen (of_name o) (of_inode o) (of_written o + len p)]>
             (fds w))
          (set_inodes
             (<[of_inode o := default [] (inodes w !! of_inode o) ++ p]>
                (inodes w)) w))).
Proof.
  intros Hfile Ho Hf Hs Hfit Hmax.
  pose proof (len_nonneg p).
  rewrite Write_before_write by lia. unfold before_write.
  rewrite Hfile.
  rewrite add_exact by (unfold Int64.in_range, Int64.min_int; lia).
  rewrite gtb_false by lia. rewrite Hfile.
  rewrite (File_Write_ok _ _ _ _ Hf Ho).
  rewrite add_exact by (unfold Int64.in_range, Int64.min_int; lia).
  done.
Qed.

(** X12: in a world without faults, payloads written one after the other
    through an open handle, their total fitting under the threshold with
    what the counter already holds, all succeed in full; the only system
    calls are the writes, one per payload; the file holds its former
    contents followed by the payloads in order, no other file changes, and
    the counter has grown by the total length. *)
Theorem writes_within_threshold ps : forall l w fd o c,
  file l = Some fd ->
  fds w !! fd = Some o ->
  inodes w !! of_inode o = Some c ->
  faults w = [] ->
  0 <= size l ->
  size l + total_len ps <= MaxSize l ->
  MaxSize l <= Int64.max_int ->
  exists l' w',
    write_all ps l w = (map (fun p => (len p, None)) ps, l', w') /\
    size l' = size l + total_len ps /\
    file l' = Some fd /\
    inodes w' !! of_inode o = Some (c ++ concat ps) /\
    (forall j, j <> of_inode o -> inodes w' !! j = inodes w !! j) /\
    names w' = names w /\
    trace w' = trace w ++ map (fun p => EvWrite fd p (len p) None) ps.
Proof.
  induction ps as [|p ps IH]; intros l w fd o c Hfile Ho Hc Hf Hs Hfit Hmax.
  - exists l, w. simpl. rewrite !app_nil_r, Z.add_0_r. done.
  - simpl in Hfit. pose proof (len_nonneg p). pose proof (total_len_nonneg ps).
    simpl. rewrite (Write_fits l p w fd o) by (done || lia).
    set (o1 := mkOpen (of_name o) (of_inode o) (of_written o + len p)).
    set (w1 := log _ _).
    set (l1 := set_size (size l + len p) l).
    destruct (IH l1 w1 fd o1 (c ++ p)) as (l' & w' & Hrun & Hsz & Hfl & Hi & Hoth & Hn & Ht).
    + done.
    + subst w1. simpl. by rewrite lookup_insert_eq.
    + subst w1 o1. simpl. by rewrite lookup_insert_eq, Hc.
    + done.
    + subst l1. simpl. lia.
    + subst l1. simpl. lia.
    + done.
    + subst o1. simpl in Hi, Hoth.
      rewrite Hrun. exists l', w'. split; [done|].
      split; [subst l1; simpl in Hsz; lia|].
      split; [done|].
      split; [by rewrite Hi, <- app_assoc|].
      split.
      { intros j Hj. rewrite (Hoth j Hj). subst w1. simpl.
        by rewrite lookup_insert_ne. }
      split; [done|].
      rewrite Ht. subst w1. simpl. by rewrite <- app_assoc.
Qed.

(** In a healthy world the creation of the file and a write through the new
    handle both succeed, the path being the name of a file already or one
    that a new file can bear; the file is the one already at the path,
    extended, or a new one holding just the payload. *)
Lemma create_and_write_healthy l p w :
  healthy l w ->
  names w !! Filename l <> None \/ name_error (Filename l) = None ->
  exists fd i w1 w2,
    createFile l w = (None, set_size 0 (set_file (Some fd) l), w1) /\
    File_Write (Some fd) p w1 = ((len p, None), w2) /\
    faults w2 = [] /\ dirs w2 = dirs w /\
    fds w !! fd = None /\
    fds w2 = <[fd := mkOpen (Filename l) i (len p)]> (fds w) /\
    names w2 !! Filename l = Some i /\
    trace w2 =
      trace w ++
      [EvStat (filepath_Dir (Filename l)) None;
       EvOpen (Filename l) (inl fd); EvWrite fd p (len p) None] /\
    ((names w !! Filename l = Some i /\ names w2 = names w /\
      inodes w2 = <[i := default [] (inodes w !! i) ++ p]> (inodes w))
     \/
     (names w !! Filename l = None /\ inodes w !! i = None /\
      names w2 = <[Filename l := i]> (names w) /\
      inodes w2 = <[i := p]> (inodes w))).
Proof.
  intros (Hf & Hdir & Hnd) Hname.
  unfold createFile. rewrite (os_Stat_ok _ _ Hf Hdir). simpl.
  set (w0 := log _ w).
  destruct (names w !! Filename l) as [i|] eqn:Hn.
  - rewrite (os_OpenFile_ok_existing (Filename l) w0 i) by done.
    set (fd := fresh_key (fds w0)). set (w1 := log _ _).
    assert (Ho : fds w1 !! fd = Some (mkOpen (Filename l) i 0)).
    { subst w1. simpl. by rewrite lookup_insert_eq. }
    exists fd, i, w1. eexists. split; [done|].
    split; [exact (File_Write_ok fd p w1 _ Hf Ho)|].
    simpl. split_and!; try done.
    + apply fresh_key_None.
    + by rewrite insert_insert_eq.
    + by rewrite <- !app_assoc.
    + left. done.
  - destruct Hname as [Hbad|Hname]; [done|].
    rewrite (os_OpenFile_ok_new (Filename l) w0) by done.
    set (fd := fresh_key (fds w0)). set (i := fresh_key (inodes w0)).
    set (w1 := log _ _).
    assert (Ho : fds w1 !! fd = Some (mkOpen (Filename l) i 0)).
    { subst w1. simpl. by rewrite lookup_insert_eq. }
    exists fd, i, w1. eexists. split; [done|].
    split; [exact (File_Write_ok fd p w1 _ Hf Ho)|].
    simpl. split_and!; try done.
    + apply fresh_key_None.
    + by rewrite insert_insert_eq.
    + by rewrite lookup_insert_eq.
    + by rewrite <- !app_assoc.
    + right. split_and!; try done.
      * apply fresh_key_None.
      * rewrite lookup_insert_eq. simpl. by rewrite insert_insert_eq.
Qed.

Lemma first_write_healthy l p w :
  file l = None ->
  len p <= MaxSize l ->
  MaxSize l <= Int64.max_int ->
  healthy l w ->
  names w !! Filename l <> None \/ name_error (Filename l) = None ->
  exists fd i w',
    Write l p w =
      ((len p, None), set_size (len p) (set_file (Some fd) l), w') /\
    faults w' = [] /\
    fds w !! fd = None /\
    fds w' = <[fd := mkOpen (Filename l) i (len p)]> (fds w) /\
    names w' !! Filename l = Some i /\
    trace w' =
      trace w ++
      [EvStat (filepath_Dir (Filename l)) None;
       EvOpen (Filename l) (inl fd); EvWrite fd p (len p) None] /\
    ((names w !! Filename l = Some i /\ names w' = names w /\
      inodes w' = <[i := default [] (inodes w !! i) ++ p]> (inodes w))
     \/
     (names w !! Filename l = None /\ inodes w !! i = None /\
      names w' = <[Filename l := i]> (names w) /\
      inodes w' = <[i := p]> (inodes w))).
Proof.
  intros Hfile Hlen Hmax Hh Hname.
  destruct (create_and_write_healthy l p w Hh Hname)
    as (fd & i & w1 & w2 & Hcr & Hwr & Hf & _ & Hfree & Hfds & Hn & Ht & Hfs).
  exists fd, i, w2. split; [|done].
  pose proof (len_nonneg p).
  rewrite Write_before_write by done. unfold before_write.
  rewrite Hfile, Hcr. simpl.
  rewrite no_rotation_at_zero by done. simpl. rewrite Hwr.
  rewrite add_exact by (unfold Int64.in_range, Int64.min_int; lia).
  done.
Qed.

(** X13: in a healthy world (no faults pending, the directory of the log
    file present, no directory in the file's place), for a path that is
    clean and can name a file (not empty, no NUL, no element longer than 255
    bytes, not ending in a slash or in a dot element), a [Write] of a payload
    that fits the threshold on a writer without a handle succeeds in full:
    it checks the directory, opens the file and writes, returns the length
    of the payload and no error, and leaves the counter at that length.  A
    file already at the path is extended by the payload; otherwise the path
    names a new file holding exactly the payload. *)
Theorem first_write_succeeds l p w :
  file l = None ->
  len p <= MaxSize l ->
  MaxSize l <= Int64.max_int ->
  healthy l w ->
  plain_path (Filename l) ->
  exists fd i w',
    Write l p w =
      ((len p, None), set_size (len p) (set_file (Some fd) l), w') /\
    faults w' = [] /\
    fds w !! fd = None /\
    fds w' = <[fd := mkOpen (Filename l) i (len p)]> (fds w) /\
    names w' !! Filename l = Some i /\
    trace w' =
      trace w ++
      [EvStat (filepath_Dir (Filename l)) None;
       EvOpen (Filename l) (inl fd); EvWrite fd p (len p) None] /\
    ((names w !! Filename l = Some i /\ names w' = names w /\
      inodes w' = <[i := default [] (inodes w !! i) ++ p]> (inodes w))
     \/
     (names w !! Filename l = None /\ inodes w !! i = None /\
      names w' = <[Filename l := i]> (names w) /\
      inodes w' = <[i := p]> (inodes w))).
Proof.
  intros Hfile Hlen Hmax Hh [_ Hname].
  apply first_write_healthy; auto.
Qed.

(** X14: closing and writing again continues the same file, and restarts
    the count.  In a healthy world, for a writer whose handle is on the file
    at its path, a [Close] followed by a [Write] of a payload that fits the
    threshold returns no error; the file keeps its contents and gets the
    payload appended, without any rotation, whatever the counter was before
    the [Close]; the counter ends as the length of the payload. *)
Theorem close_then_write_appends l p w fd o c :
  file l = Some fd ->
  fds w !! fd = Some o ->
  names w !! Filename l = Some (of_inode o) ->
  inodes w !! of_inode o = Some c ->
  len p <= MaxSize l ->
  MaxSize l <= Int64.max_int ->
  healthy l w ->
  (Close l w).1.1 = None /\
  exists fd' w',
    Write (Close l w).1.2 p (Close l w).2 =
      ((len p, None), set_size (len p) (set_file (Some fd') l), w') /\
    names w' = names w /\
    inodes w' = <[of_inode o := c ++ p]> (inodes w) /\
    trace w' =
      trace w ++
      [EvClose fd None; EvStat (filepath_Dir (Filename l)) None;
       EvOpen (Filename l) (inl fd'); EvWrite fd' p (len p) None].
Proof.
  intros Hfile Ho Hname Hc Hlen Hmax (Hf & Hdir & Hnd).
  unfold Close. rewrite (closeFile_open _ _ _ Hfile).
  rewrite (File_Close_ok _ _ _ Hf Ho). simpl. split; [done|].
  set (w1 := log _ _).
  destruct (first_write_healthy (set_file None l) p w1)
    as (fd' & i & w' & HW & _ & _ & _ & Hn & Ht & Hfs); [done..| |].
  { left. subst w1. simpl. congruence. }
  exists fd', w'. split; [exact HW|].
  destruct Hfs as [(Hex & Hn' & Hi')|(Hbad & _)];
    [|subst w1; simpl in Hbad; congruence].
  subst w1. simpl in *. assert (i = of_inode o) as -> by congruence.
  split; [done|]. split; [by rewrite Hi', Hc|].
  by rewrite Ht, <- app_assoc.
Qed.

(** X15: in a healthy world a rotation goes through.  For a writer whose
    handle is open and whose file is at its path, the path clean and fit to
    name a file, a payload that fits the threshold on its own but not with
    what the counter holds, and a backup name that can name a file in a
    directory that exists, with no directory in its place, and that is not
    a name of the log file already (a hard link), [Write] returns the
    length of
    the payload and no error after exactly five system calls: close, rename,
    stat, open, write.  The old file is under the backup name with its
    contents, the path names another file holding exactly the payload, the
    writer holds the new handle and the counter is the payload's length. *)
Theorem rotation_succeeds l p w fd o i c :
  file l = Some fd ->
  fds w !! fd = Some o ->
  names w !! Filename l = Some i ->
  inodes w !! i = Some c ->
  len p <= MaxSize l ->
  MaxSize l <= Int64.max_int ->
  Int64.add (len p) (size l) > MaxSize l ->
  healthy l w ->
  plain_path (Filename l) ->
  backupName l w ∉ dirs w ->
  name_error (backupName l w) = None ->
  filepath_Dir (backupName l w) ∈ dirs w ->
  names w !! backupName l w <> Some i ->
  exists fd' i' w',
    Write l p w =
      ((len p, None), set_size (len p) (set_file (Some fd') l), w') /\
    names w' !! backupName l w = Some i /\
    inodes w' !! i = Some c /\
    names w' !! Filename l = Some i' /\
    i' <> i /\
    inodes w' !! i' = Some p /\
    fds w' = <[fd' := mkOpen (Filename l) i' (len p)]> (delete fd (fds w)) /\
    trace w' =
      trace w ++
      [EvClose fd None; EvRename (Filename l) (backupName l w) None;
       EvStat (filepath_Dir (Filename l)) None;
       EvOpen (Filename l) (inl fd'); EvWrite fd' p (len p) None].
Proof.
  intros Hfile Ho Hname Hc Hlen Hmax Htrig (Hf & Hdir & Hnd) [_ Hpath]
    Hbk Hbn Hbd Hlink.
  pose proof (len_nonneg p) as Hp.
  pose proof (backupName_ne l w) as Hne.
  rewrite (Write_rotating _ _ _ _ Hfile Hlen Htrig).
  unfold rotateFile. rewrite (closeFile_open _ _ _ Hfile).
  rewrite (File_Close_ok _ _ _ Hf Ho). simpl.
  set (w1 := log _ _).
  change (backupName (set_file None l) w1) with (backupName l w).
  rewrite (os_Rename_ok (Filename l) (backupName l w) w1 i) by done.
  set (w2 := log _ _).
  destruct (create_and_write_healthy (set_file None l) p w2)
    as (fd' & i' & w3 & w4 & Hcr & Hwr & _ & _ & _ & Hfds & Hn & Ht & Hfs);
    [done|by right|].
  change (Filename (set_file None l)) with (Filename l) in *.
  rewrite Hcr. simpl. rewrite Hwr.
  rewrite add_exact by (unfold Int64.in_range, Int64.min_int; lia).
  exists fd', i', w4. split; [done|].
  assert (Hgone : names w2 !! Filename l = None).
  { subst w2 w1. simpl. rewrite lookup_insert_ne, lookup_delete_eq; done. }
  destruct Hfs as [(Hbad & _)|(_ & Hfresh & Hn4 & Hi4)]; [congruence|].
  subst w2 w1. simpl in *.
  assert (Hii : i' <> i) by congruence.
  split_and!; try done.
  - rewrite Hn4, lookup_insert_ne, lookup_insert_eq; done.
  - rewrite Hi4, lookup_insert_ne; done.
  - rewrite Hi4, lookup_insert_eq. done.
  - rewrite Ht, <- !app_assoc. done.
Qed.

(** ** Handles *)

Lemma before_write_failed_fds l p w e l2 w2 :
  len p <= MaxSize l ->
  before_write l p w = (Some e, l2, w2) ->
  file l2 = None /\
  fds w2 = match file l with
           | Some fd => delete fd (fds w)
           | None => fds w
           end.
Proof.
  intros Hlen H. unfold before_write in H.
  destruct (file l) as [fd|] eqn:Hfile.
  - destruct (_ >? _); [|done].
    apply (rotateFile_spec _ _ _ _ _ _ Hfile) in H as [_ (-> & _ & Hf & _)].
    done.
  - destruct (createFile l w) as [[[e1|] l1] w1] eqn:Hcr.
    + simplify_eq. apply createFile_spec in Hcr as [_ (-> & _ & _ & Hf & _)].
      done.
    + apply createFile_spec in Hcr as [_ (r & fd & _ & -> & _)].
      simpl in H. by rewrite no_rotation_at_zero in H.
Qed.

Lemma Write_owns T l p w :
  owns_only T l w -> owns_only T (Write l p w).1.2 (Write l p w).2.
Proof.
  intros Hown.
  destruct (Z.gtb_spec (len p) (MaxSize l)) as [Hgt|Hle].
  { by rewrite Write_rejected by lia. }
  destruct (before_write l p w) as [[eb l2] w2] eqn:Hb.
  pose proof (Write_via_before _ _ _ _ _ _ Hle Hb) as HWr.
  destruct eb as [e|]; rewrite HWr; simpl.
  - apply before_write_failed_fds in Hb as [Hnone Hf]; [|done].
    unfold owns_only in *. rewrite Hnone, Hf.
    destruct (file l) as [fd|]; [|done].
    destruct Hown as (HT & o & ->). by rewrite delete_insert_id.
  - apply before_write_spec in Hb as (pre & _ & _ & Hb); [|done].
    assert (exists fd o, file l2 = Some fd /\ T !! fd = None /\
                         fds w2 = <[fd := o]> T) as (fd & o & Hfd & HT & Hf2).
    { unfold owns_only in Hown.
      destruct Hb as [(fd & Hf & -> & -> & _)
                     |[(r & fd & Hf & -> & _ & Hop)
                      |(r & fd0 & fd & w1 & Hf & -> & _ & _ & Haway & Hop)]].
      - rewrite Hf in Hown. destruct Hown as (HT & o & Hfds). by exists fd, o.
      - rewrite Hf in Hown. destruct Hop as (i & _ & Hfree & Hfds & _).
        rewrite Hown in Hfree, Hfds. by eexists fd, _.
      - rewrite Hf in Hown. destruct Hown as (HT & o & Hfds).
        destruct Haway as (i0 & _ & _ & _ & Hf1).
        destruct Hop as (i & _ & Hfree & Hfds2 & _).
        rewrite Hf1, Hfds, delete_insert_id in Hfree, Hfds2 by done.
        by eexists fd, _. }
    rewrite Hfd.
    destruct (File_Write (Some fd) p w2) as [[n err] w3] eqn:Hwr.
    apply File_Write_spec in Hwr as (_ & _ & _ & _ & _ & _ & Hwr).
    unfold owns_only. simpl. rewrite Hfd. split; [done|].
    destruct Hwr as [(o' & _ & Hf3 & _)|(_ & _ & _ & _ & Hf3)].
    + eexists. by rewrite Hf3, Hf2, insert_insert_eq.
    + exists o. by rewrite Hf3.
Qed.

Lemma Close_owns T l w :
  owns_only T l w -> owns_only T (Close l w).1.2 (Close l w).2.
Proof.
  unfold owns_only, Close, closeFile.
  destruct (file l) as [fd|] eqn:Hfile; [|by simpl; rewrite Hfile].
  intros (HT & o & Hf).
  destruct (File_Close fd w) as [r w'] eqn:Hcl.
  apply File_Close_spec in Hcl as (_ & _ & Hf' & _). simpl.
  by rewrite Hf', Hf, delete_insert_id.
Qed.

Lemma run_owns T cs : forall l w,
  owns_only T l w -> owns_only T (run cs l w).1 (run cs l w).2.
Proof.
  induction cs as [|c cs IH]; intros l w Hown; [done|].
  simpl. apply IH. destruct c; simpl.
  - by apply Write_owns.
  - by apply Close_owns.
Qed.

Lemma run_app cs1 cs2 l w :
  run (cs1 ++ cs2) l w = run cs2 (run cs1 l w).1 (run cs1 l w).2.
Proof.
  revert l w. induction cs1 as [|c cs1 IH]; intros l w; [done|].
  simpl. apply IH.
Qed.

(** X16: the writer never leaks a handle and never disturbs another open
    file.  After any sequence of [Write] and [Close] calls on a new writer,
    whatever faults occur, the open files of the world are those that were
    open at the start, unchanged, plus the writer's current handle if it
    has one; and when the sequence ends with a [Close], exactly those that
    were open at the start. *)
Theorem handles_never_leak cs filename req w :
  match file (run cs (NewLogrotate filename req) w).1 with
  | None => fds (run cs (NewLogrotate filename req) w).2 = fds w
  | Some fd =>
      fds w !! fd = None /\
      exists o,
        fds (run cs (NewLogrotate filename req) w).2 = <[fd := o]> (fds w)
  end /\
  fds (run (cs ++ [CallClose]) (NewLogrotate filename req) w).2 = fds w.
Proof.
  assert (H0 : owns_only (fds w) (NewLogrotate filename req) w) by done.
  split.
  - apply (run_owns _ cs) in H0. exact H0.
  - apply (run_owns _ (cs ++ [CallClose])) in H0.
    unfold owns_only in H0. rewrite run_app in H0 |- *. simpl in *.
    unfold Close in *.
    by rewrite closeFile_file in H0.
Qed.

(** ** Backup names *)

Lemma digit_inj n m : digit n = digit m -> (n mod 10 = m mod 10)%nat.
Proof.
  unfold digit. intros H.
  apply (f_equal nat_of_ascii) in H.
  pose proof (Nat.mod_upper_bound n 10).
  pose proof (Nat.mod_upper_bound m 10).
  rewrite !nat_ascii_embedding in H by lia. lia.
Qed.

Lemma digits_from_length k : forall n acc,
  String.length (digits_from k n acc) = (k + String.length acc)%nat.
Proof.
  induction k as [|k IH]; intros n acc; simpl; [done|].
  rewrite IH. simpl. lia.
Qed.

Lemma digits_from_inj k : forall n m acc acc',
  (n < 10 ^ k)%nat -> (m < 10 ^ k)%nat ->
  digits_from k n acc = digits_from k m acc' ->
  n = m /\ acc = acc'.
Proof.
  induction k as [|k IH]; intros n m acc acc' Hn Hm H.
  - simpl in *. split; [lia|done].
  - rewrite Nat.pow_succ_r' in Hn, Hm. cbn [digits_from] in H.
    apply IH in H as [Hdiv Hacc].
    + injection Hacc as Hd ->. apply digit_inj in Hd.
      split; [|done].
      rewrite (Nat.div_mod_eq n 10), (Nat.div_mod_eq m 10).
      by rewrite Hdiv, Hd.
    + apply Nat.Div0.div_lt_upper_bound. lia.
    + apply Nat.Div0.div_lt_upper_bound. lia.
Qed.

Lemma ndigits_fuel_le fuel : forall k n,
  (1 <= k)%nat -> (n < 10 ^ k)%nat -> (ndigits_fuel fuel n <= k)%nat.
Proof.
  induction fuel as [|fuel IH]; intros k n Hk Hn; cbn [ndigits_fuel];
    [done|].
  destruct (Nat.ltb_spec n 10) as [Hlt|Hge]; [done|].
  destruct k as [|[|k]]; [lia|simpl in Hn; lia|].
  apply le_n_S. apply IH; [lia|].
  rewrite Nat.pow_succ_r' in Hn.
  apply Nat.Div0.div_lt_upper_bound. lia.
Qed.

(** A number that fits the width is printed in just that many digits. *)
Lemma zero_pad_fits k n :
  (1 <= k)%nat -> (n < 10 ^ k)%nat -> zero_pad k n = digits_from k n "".
Proof.
  intros Hk Hn. unfold zero_pad, ndigits.
  by rewrite Nat.max_l by by apply ndigits_fuel_le.
Qed.

Lemma zero_pad_inj k n m :
  (1 <= k)%nat -> (n < 10 ^ k)%nat -> (m < 10 ^ k)%nat ->
  zero_pad k n = zero_pad k m -> n = m.
Proof.
  intros Hk Hn Hm H. rewrite !zero_pad_fits in H by done.
  by destruct (digits_from_inj k n m "" "" Hn Hm H).
Qed.

Lemma zero_pad_length k n :
  (1 <= k)%nat -> (n < 10 ^ k)%nat -> String.length (zero_pad k n) = k.
Proof.
  intros Hk Hn. rewrite zero_pad_fits by done.
  rewrite digits_from_length. simpl. lia.
Qed.

Lemma append_inj_length (s1 : string) : forall s2 r1 r2,
  String.length s1 = String.length s2 ->
  s1 +:+ r1 = s2 +:+ r2 -> s1 = s2 /\ r1 = r2.
Proof.
  induction s1 as [|c s1 IH]; intros [|c2 s2] r1 r2 Hl H; simpl in *;
    try done.
  injection H as -> H. injection Hl as Hl.
  destruct (IH _ _ _ Hl H) as [-> ->]. done.
Qed.

Lemma Time_Format_inj t1 t2 :
  fits_layout t1 -> fits_layout t2 ->
  Time_Format t1 = Time_Format t2 -> t1 = t2.
Proof.
  intros (Hy1 & Hmo1 & Hd1 & Hh1 & Hmi1 & Hs1)
         (Hy2 & Hmo2 & Hd2 & Hh2 & Hmi2 & Hs2) H.
  unfold Time_Format in H.
  assert (Hl : forall k a b,
            (1 <= k)%nat -> (a < 10 ^ k)%nat -> (b < 10 ^ k)%nat ->
            String.length (zero_pad k a) = String.length (zero_pad k b)).
  { intros k a b Hk Ha Hb. by rewrite !zero_pad_length. }
  apply append_inj_length in H as [Hy H]; [|apply Hl; done || lia].
  apply append_inj_length in H as [_ H]; [|done].
  apply append_inj_length in H as [Hmo H]; [|apply Hl; done || lia].
  apply append_inj_length in H as [_ H]; [|done].
  apply append_inj_length in H as [Hd H]; [|apply Hl; done || lia].
  apply append_inj_length in H as [_ H]; [|done].
  apply append_inj_length in H as [Hh H]; [|apply Hl; done || lia].
  apply append_inj_length in H as [_ H]; [|done].
  apply append_inj_length in H as [Hmi H]; [|apply Hl; done || lia].
  apply append_inj_length in H as [_ H]; [|done].
  apply zero_pad_inj in Hy; [|lia|done..].
  apply zero_pad_inj in Hmo; [|lia|done..].
  apply zero_pad_inj in Hd; [|lia|done..].
  apply zero_pad_inj in Hh; [|lia|done..].
  apply zero_pad_inj in Hmi; [|lia|done..].
  apply zero_pad_inj in H; [|lia|done..].
  destruct t1, t2; simpl in *; congruence.
Qed.

(** X17: the backup name is never the path itself, and, for clock readings
    within the widths of the layout, two backup names of the same writer are
    equal exactly when the two readings are the same second: rotations in
    different seconds get different backup names, rotations in the same
    second the same one. *)
Theorem backup_names_by_second l w w' :
  fits_layout (now w) ->
  fits_layout (now w') ->
  backupName l w <> Filename l /\
  (backupName l w = backupName l w' <-> now w = now w').
Proof.
  intros H1 H2. split; [apply backupName_ne|]. split.
  - unfold backupName, time_Now. intros H.
    apply append_inj_length in H as [_ H]; [|done].
    apply append_inj_length in H as [_ H]; [|done].
    by apply Time_Format_inj.
  - unfold backupName, time_Now. by intros ->.
Qed.

(** ** Instances of the further properties *)

Lemma healthy_open_world : healthy open_writer open_world.
Proof.
  unfold healthy. split; [done|]. split.
  - refine (bool_decide_unpack _ _). by vm_compute.
  - refine (bool_decide_unpack _ _). by vm_compute.
Qed.

Lemma healthy_empty_world : healthy idle_writer empty_world.
Proof.
  unfold healthy. split; [done|]. split.
  - refine (bool_decide_unpack _ _). by vm_compute.
  - refine (bool_decide_unpack _ _). by vm_compute.
Qed.

Lemma first_write_never_rotates_witness :
  exists n err l' w' evs,
    Write idle_writer three_bytes empty_world = ((n, err), l', w') /\
    trace w' = trace empty_world ++ evs /\
    List.filter is_rotation_event evs = [].
Proof.
  destruct (first_write_never_rotates idle_writer three_bytes empty_world)
    as (n & err & l' & w' & evs & H1 & H2 & H3 & _).
  - vm_compute. reflexivity.
  - vm_compute. discriminate.
  - vm_compute. discriminate.
  - exists n, err, l', w', evs. split_and!; assumption.
Defined.

Lemma stat_error_not_surfaced_witness :
  exists r w',
    createFile idle_writer (empty_world_with first_fault) =
      (match r with
       | inl fd => (None, set_size 0 (set_file (Some fd) idle_writer))
       | inr e' => (Some e', idle_writer)
       end, w') /\
    trace w' =
      [EvStat "logs" (Some (PathError "stat" "logs" EACCES));
       EvOpen "logs/app.log" r].
Proof.
  destruct (stat_error_not_surfaced idle_writer (empty_world_with first_fault)
              (PathError "stat" "logs" EACCES)
              (snd (os_Stat "logs" (empty_world_with first_fault))))
    as (r & w' & _ & H1 & H2).
  - vm_compute. reflexivity.
  - vm_compute. reflexivity.
  - exists r, w'. split; assumption.
Defined.

Lemma createFile_failure_is_clean_witness :
  names (createFile idle_writer (empty_world_with second_fault)).2 =
    names (empty_world_with second_fault) /\
  fds (createFile idle_writer (empty_world_with second_fault)).2 =
    fds (empty_world_with second_fault).
Proof.
  destruct (createFile_failure_is_clean idle_writer
              (empty_world_with second_fault)
              (PathError "open" "logs/app.log" EACCES)
              idle_writer
              (createFile idle_writer (empty_world_with second_fault)).2)
    as (_ & H1 & _ & H2 & _).
  - vm_compute. reflexivity.
  - split; assumption.
Defined.

Lemma createFile_opens_for_append_witness :
  exists fd i,
    (createFile idle_writer empty_world).1.2 =
      set_size 0 (set_file (Some fd) idle_writer) /\
    names (createFile idle_writer empty_world).2 !! "logs/app.log" = Some i /\
    inodes (createFile idle_writer empty_world).2 !! i = Some [].
Proof.
  destruct (createFile_opens_for_append idle_writer empty_world
              (createFile idle_writer empty_world).1.2
              (createFile idle_writer empty_world).2)
    as (fd & i & H1 & _ & _ & H2 & _ & _ & H3).
  - vm_compute. reflexivity.
  - exists fd, i. split_and!; [assumption..|]. apply H3. reflexivity.
Defined.

Lemma rename_failure_aborts_witness :
  Write open_writer three_bytes (open_world_with second_fault) =
    ((0, Some (LinkError "rename" "logs/app.log"
                 "logs/app.log.2024.03.09_07:05:59" EACCES)),
     set_file None open_writer,
     (Write open_writer three_bytes (open_world_with second_fault)).2).
Proof.
  destruct (rename_failure_aborts open_writer three_bytes
              (open_world_with second_fault) 0
              (LinkError "rename" "logs/app.log"
                 "logs/app.log.2024.03.09_07:05:59" EACCES)
              (File_Close 0 (open_world_with second_fault)).2
              (Write open_writer three_bytes
                 (open_world_with second_fault)).2)
    as (H & _).
  - vm_compute. reflexivity.
  - vm_compute. discriminate.
  - vm_compute. reflexivity.
  - vm_compute. reflexivity.
  - vm_compute. reflexivity.
  - exact H.
Defined.

Lemma recreate_failure_keeps_backup_witness :
  names (Write open_writer three_bytes (open_world_with fourth_fault)).2
    !! "logs/app.log" = None /\
  names (Write open_writer three_bytes (open_world_with fourth_fault)).2
    !! "logs/app.log.2024.03.09_07:05:59" = Some 0%nat.
Proof.
  destruct (recreate_failure_keeps_backup open_writer three_bytes
              (open_world_with fourth_fault) 0
              (File_Close 0 (open_world_with fourth_fault)).2
              (os_Rename "logs/app.log" "logs/app.log.2024.03.09_07:05:59"
                 (File_Close 0 (open_world_with fourth_fault)).2).2
              (PathError "open" "logs/app.log" EACCES)
              (set_file None open_writer)
              (Write open_writer three_bytes
                 (open_world_with fourth_fault)).2)
    as (_ & H1 & H2 & _).
  - vm_compute. reflexivity.
  - vm_compute. discriminate.
  - vm_compute. reflexivity.
  - vm_compute. discriminate.
  - vm_compute. reflexivity.
  - vm_compute. reflexivity.
  - vm_compute. reflexivity.
  - split; [exact H1|exact H2].
Defined.

Lemma writes_within_threshold_witness :
  exists l' w',
    write_all [[Byte.x61]; [Byte.x0a]] open_writer open_world =
      ([(1, None); (1, None)], l', w') /\
    size l' = 8 /\
    inodes w' !! 0%nat = Some (six_bytes ++ [Byte.x61; Byte.x0a]).
Proof.
  destruct (writes_within_threshold [[Byte.x61]; [Byte.x0a]]
              open_writer open_world 0 (mkOpen "logs/app.log" 0 6) six_bytes)
    as (l' & w' & H1 & H2 & _ & H3 & _).
  - vm_compute. reflexivity.
  - vm_compute. reflexivity.
  - vm_compute. reflexivity.
  - vm_compute. reflexivity.
  - vm_compute. discriminate.
  - vm_compute. discriminate.
  - vm_compute. discriminate.
  - exists l', w'. split_and!; assumption.
Defined.

Lemma first_write_succeeds_witness :
  exists fd i w',
    Write idle_writer three_bytes empty_world =
      ((3, None), set_size 3 (set_file (Some fd) idle_writer), w') /\
    names w' !! "logs/app.log" = Some i.
Proof.
  destruct (first_write_succeeds idle_writer three_bytes empty_world)
    as (fd & i & w' & H1 & _ & _ & _ & H2 & _).
  - vm_compute. reflexivity.
  - vm_compute. discriminate.
  - vm_compute. discriminate.
  - exact healthy_empty_world.
  - split; vm_compute; reflexivity.
  - exists fd, i, w'. split; assumption.
Defined.

Lemma close_then_write_appends_witness :
  exists fd' w',
    Write (Close open_writer open_world).1.2 three_bytes
      (Close open_writer open_world).2 =
      ((3, None), set_size 3 (set_file (Some fd') open_writer), w') /\
    inodes w' = <[0%nat := six_bytes ++ three_bytes]> (inodes open_world).
Proof.
  destruct (close_then_write_appends open_writer three_bytes open_world 0
              (mkOpen "logs/app.log" 0 6) six_bytes)
    as (_ & fd' & w' & H1 & _ & H2 & _).
  - vm_compute. reflexivity.
  - vm_compute. reflexivity.
  - vm_compute. reflexivity.
  - vm_compute. reflexivity.
  - vm_compute. discriminate.
  - vm_compute. discriminate.
  - exact healthy_open_world.
  - exists fd', w'. split; assumption.
Defined.

Lemma rotation_succeeds_witness :
  exists fd' i' w',
    Write open_writer three_bytes open_world =
      ((3, None), set_size 3 (set_file (Some fd') open_writer), w') /\
    names w' !! backupName open_writer open_world = Some 0%nat /\
    inodes w' !! 0%nat = Some six_bytes /\
    names w' !! "logs/app.log" = Some i' /\
    inodes w' !! i' = Some three_bytes.
Proof.
  destruct (rotation_succeeds open_writer three_bytes open_world 0
              (mkOpen "logs/app.log" 0 6) 0 six_bytes)
    as (fd' & i' & w' & H1 & H2 & H3 & H4 & _ & H5 & _).
  - vm_compute. reflexivity.
  - vm_compute. reflexivity.
  - vm_compute. reflexivity.
  - vm_compute. reflexivity.
  - vm_compute. discriminate.
  - vm_compute. discriminate.
  - vm_compute. reflexivity.
  - exact healthy_open_world.
  - split; vm_compute; reflexivity.
  - refine (bool_decide_unpack _ _). by vm_compute.
  - vm_compute. reflexivity.
  - refine (bool_decide_unpack _ _). by vm_compute.
  - vm_compute. discriminate.
  - exists fd', i', w'. split_and!; assumption.
Defined.

Lemma backup_names_by_second_witness :
  backupName open_writer open_world <> Filename open_writer /\
  (backupName open_writer open_world = backupName open_writer empty_world <->
   now open_world = now empty_world).
Proof.
  apply (backup_names_by_second open_writer open_world empty_world).
  - unfold fits_layout. simpl now. unfold sample_time. simpl. lia.
  - unfold fits_layout. simpl now. unfold sample_time. simpl. lia.
Defined.
